(** * The content indexing and ranking engine (services/dataIndexer.js)

    A shallow embedding of the [DataIndexer] class: the slug utilities, the
    structured crawler, the in-memory collections with refresh and statistics,
    and the multi-strategy search with its merge and ranking.

    Conventions of the embedding.
    - JavaScript strings are [string] (8-bit characters); [toLowerCase] acts on
      the letters A-Z, and white space is the Latin-1 part of the class [\s].
    - JavaScript numbers that carry scores are exact rationals ([Qc]); the
      rounding of IEEE doubles is not modelled.
    - The network (axios), the HTML parser (cheerio), the URL parser and the
      fuzzy index (fuse.js) are external: they appear as a [World] of
      responses, as already parsed pages, and as Section variables.
    - The clock is a parameter [now] of each operation. *)

From stdpp Require Import base option list strings numbers pretty gmap sets sorting.
From Stdlib Require Import Ascii String QArith Qcanon Lqa.

Close Scope Qc_scope.
Close Scope Q_scope.
Local Open Scope string_scope.

(** ** Strings as the source uses them *)

Module Str.

Definition code (c : ascii) : nat := nat_of_ascii c.

Definition isUpper (c : ascii) : bool :=
  (65 <=? code c)%nat && (code c <=? 90)%nat.

Definition isLower (c : ascii) : bool :=
  (97 <=? code c)%nat && (code c <=? 122)%nat.

Definition isDigit (c : ascii) : bool :=
  (48 <=? code c)%nat && (code c <=? 57)%nat.

(** The character class [[a-z0-9]]. *)
Definition isAlnum (c : ascii) : bool := isLower c || isDigit c.

(** The class [\s] and the characters removed by [trim], within Latin-1:
    tab, line feed, vertical tab, form feed, carriage return, space, nbsp. *)
Definition isSpace (c : ascii) : bool :=
  ((9 <=? code c)%nat && (code c <=? 13)%nat)
  || (code c =? 32)%nat || (code c =? 160)%nat.

Definition lowerChar (c : ascii) : ascii :=
  if isUpper c then ascii_of_nat (code c + 32) else c.

Fixpoint map (f : ascii → ascii) (s : string) : string :=
  match s with
  | EmptyString => EmptyString
  | String c s' => String (f c) (map f s')
  end.

Definition toLowerCase (s : string) : string := map lowerChar s.

(** [s.substring(0, n)] *)
Fixpoint substring0 (n : nat) (s : string) : string :=
  match n, s with
  | S n', String c s' => String c (substring0 n' s')
  | _, _ => EmptyString
  end.

Fixpoint trimStart (s : string) : string :=
  match s with
  | String c s' => if isSpace c then trimStart s' else s
  | EmptyString => EmptyString
  end.

Fixpoint allSpace (s : string) : bool :=
  match s with
  | EmptyString => true
  | String c s' => isSpace c && allSpace s'
  end.

Fixpoint trimEnd (s : string) : string :=
  match s with
  | EmptyString => EmptyString
  | String c s' => if allSpace s then EmptyString else String c (trimEnd s')
  end.

Definition trim (s : string) : string := trimEnd (trimStart s).

Fixpoint startsWith (p s : string) : bool :=
  match p, s with
  | EmptyString, _ => true
  | String a p', String b s' => Ascii.eqb a b && startsWith p' s'
  | String _ _, EmptyString => false
  end.

(** [s.includes(sub)] *)
Fixpoint includes (s sub : string) : bool :=
  startsWith sub s ||
  match s with
  | EmptyString => false
  | String _ s' => includes s' sub
  end.

(** [s.split(/\s+/)]: [cur] is the piece being read, [inWs] tells that the
    previous character belonged to a separator. *)
Fixpoint splitWsFrom (cur : string) (inWs : bool) (s : string) : list string :=
  match s with
  | EmptyString => [cur]
  | String c s' =>
      if isSpace c
      then if inWs then splitWsFrom cur true s'
           else cur :: splitWsFrom EmptyString true s'
      else splitWsFrom (cur ++ String c EmptyString) false s'
  end.

Definition splitWs (s : string) : list string := splitWsFrom EmptyString false s.

(** [parts.join(sep)] *)
Fixpoint join (sep : string) (parts : list string) : string :=
  match parts with
  | [] => EmptyString
  | [p] => p
  | p :: rest => p ++ sep ++ join sep rest
  end.

(** JavaScript truthiness of a string that may be absent. *)
Definition truthy (o : option string) : bool :=
  match o with
  | Some (String _ _) => true
  | _ => false
  end.

(** [a || b] on strings that may be absent. *)
Definition orElse (a b : option string) : option string :=
  if truthy a then a else b.

End Str.

(** ** Identifier slugs *)

Definition hyphen : ascii := "-"%char.

(** [.replace(/[^a-z0-9]/g, '-')] *)
Definition replaceNonAlnum (s : string) : string :=
  Str.map (λ c, if Str.isAlnum c then c else hyphen) s.

Definition startsWithHyphen (s : string) : bool :=
  match s with
  | String c _ => Ascii.eqb c hyphen
  | EmptyString => false
  end.

(** [.replace(/-+/g, '-')]: a hyphen followed by a hyphen is dropped, so each
    run keeps its last one. *)
Fixpoint collapseHyphens (s : string) : string :=
  match s with
  | EmptyString => EmptyString
  | String c s' =>
      if Ascii.eqb c hyphen && startsWithHyphen s'
      then collapseHyphens s'
      else String c (collapseHyphens s')
  end.

Definition stripLeadingHyphen (s : string) : string :=
  match s with
  | String c s' => if Ascii.eqb c hyphen then s' else s
  | EmptyString => EmptyString
  end.

Fixpoint stripTrailingHyphen (s : string) : string :=
  match s with
  | EmptyString => EmptyString
  | String c EmptyString => if Ascii.eqb c hyphen then EmptyString else s
  | String c s' => String c (stripTrailingHyphen s')
  end.

(** [.replace(/^-|-$/g, '')]: the first alternative can only match at index 0
    and the second only at the last index, after the first match. *)
Definition stripEdgeHyphens (s : string) : string :=
  stripTrailingHyphen (stripLeadingHyphen s).

Definition generateId (text : string) : string :=
  stripEdgeHyphens (collapseHyphens (replaceNonAlnum (Str.toLowerCase text))).

Definition generateSectionId (text : string) : string :=
  Str.substring0 50 (generateId text).

(** ** Records of the four collections *)

(** A section summary as [parsePageStructure] builds it. *)
Record PageSection := {
  ps_id : string;
  ps_title : string;
  ps_content : string;
  ps_level : nat;
  ps_path : list string;
  ps_tags : list string;
  ps_url : string;
}.

(** One indexable object.  The source builds these as object literals of
    varying shape; a field that a literal does not set is [None] (or empty).
    [item_category] is stamped by [buildSearchIndex] and [addCustomData]. *)
Record Item := {
  item_id : option string;
  item_title : string;
  item_description : option string;
  item_content : option string;
  item_source : string;
  item_type : string;
  item_url : option string;
  item_data : option string;
  item_tags : list string;
  item_lastUpdated : N;
  item_category : option string;
  item_sections : list PageSection;
  item_parentUrl : option string;
  item_parentTitle : option string;
  item_level : option nat;
  item_path : list string;
}.

Definition withCategory (c : string) (it : Item) : Item :=
  {| item_id := item_id it; item_title := item_title it;
     item_description := item_description it; item_content := item_content it;
     item_source := item_source it; item_type := item_type it;
     item_url := item_url it; item_data := item_data it;
     item_tags := item_tags it; item_lastUpdated := item_lastUpdated it;
     item_category := Some c; item_sections := item_sections it;
     item_parentUrl := item_parentUrl it; item_parentTitle := item_parentTitle it;
     item_level := item_level it; item_path := item_path it |}.

(** ** Parsed pages *)

(** A sibling element that follows a heading: its upper-case tag name, its
    text, and the texts of the [li] elements below it. *)
Record Element := {
  el_tagName : string;
  el_text : string;
  el_items : list string;
}.

(** An element selected by ['h1, h2, h3, h4, h5, h6']: the number in its tag
    name, its text and the siblings after it, in document order. *)
Record HeadingNode := {
  hd_level : nat;
  hd_text : string;
  hd_next : list Element;
}.

(** What the crawler reads from a response and its parsed document. *)
Record Page := {
  pg_data : string;
  pg_titleText : string;
  pg_firstH1 : string;
  pg_metaDescription : option string;
  pg_ogDescription : option string;
  pg_firstParagraph : string;
  pg_headings : list HeadingNode;
  pg_hrefs : list string;
}.

(** [axios.get]: [None] is a request that throws. *)
Definition World := string → option Page.

Record CrawlOptions := {
  opt_source : string;
  opt_tags : list string;
  opt_maxDepth : option nat;
}.

(** ** The indexer object *)

(** [searchIndex] holds the items the index was built over; [requests] is the
    trace of the [axios.get] calls issued so far, oldest first (it is not a
    field of the class but its effect on the network). *)
Record Indexer := {
  datasets : list Item;
  apis : list Item;
  documents : list Item;
  contentSections : list Item;
  searchIndex : option (list Item);
  lastUpdated : option N;
  crawledUrls : gset string;
  requests : list string;
}.

Definition maxCrawlDepth : nat := 3.

Definition newIndexer : Indexer :=
  {| datasets := []; apis := []; documents := []; contentSections := [];
     searchIndex := None; lastUpdated := None; crawledUrls := ∅;
     requests := [] |}.

Module Endpoints.
Definition absCodelist := "https://data.api.abs.gov.au/rest/codelist/abs/CL_LGA_2021".
Definition absDataflow := "https://data.api.abs.gov.au/rest/dataflow/all?detail=allstubs".
Definition absOpenapi :=
  "https://raw.githubusercontent.com/apigovau/api-descriptions/gh-pages/abs/DataAPI.openapi.yaml".
Definition dewr := "https://www.dewr.gov.au/".
Definition ato := "https://www.ato.gov.au/about-ato/research-and-statistics".
Definition absStats :=
  "https://www.abs.gov.au/AUSSTATS/abs@.nsf/allprimarymainfeatures/A7FFA19FF6239724CA257F65002272E1?opendocument".
End Endpoints.

Definition set_datasets (v : list Item) (ix : Indexer) : Indexer :=
  {| datasets := v; apis := apis ix; documents := documents ix;
     contentSections := contentSections ix; searchIndex := searchIndex ix;
     lastUpdated := lastUpdated ix; crawledUrls := crawledUrls ix;
     requests := requests ix |}.

Definition set_apis (v : list Item) (ix : Indexer) : Indexer :=
  {| datasets := datasets ix; apis := v; documents := documents ix;
     contentSections := contentSections ix; searchIndex := searchIndex ix;
     lastUpdated := lastUpdated ix; crawledUrls := crawledUrls ix;
     requests := requests ix |}.

Definition set_documents (v : list Item) (ix : Indexer) : Indexer :=
  {| datasets := datasets ix; apis := apis ix; documents := v;
     contentSections := contentSections ix; searchIndex := searchIndex ix;
     lastUpdated := lastUpdated ix; crawledUrls := crawledUrls ix;
     requests := requests ix |}.

Definition set_contentSections (v : list Item) (ix : Indexer) : Indexer :=
  {| datasets := datasets ix; apis := apis ix; documents := documents ix;
     contentSections := v; searchIndex := searchIndex ix;
     lastUpdated := lastUpdated ix; crawledUrls := crawledUrls ix;
     requests := requests ix |}.

Definition set_searchIndex (v : option (list Item)) (ix : Indexer) : Indexer :=
  {| datasets := datasets ix; apis := apis ix; documents := documents ix;
     contentSections := contentSections ix; searchIndex := v;
     lastUpdated := lastUpdated ix; crawledUrls := crawledUrls ix;
     requests := requests ix |}.

Definition set_lastUpdated (v : option N) (ix : Indexer) : Indexer :=
  {| datasets := datasets ix; apis := apis ix; documents := documents ix;
     contentSections := contentSections ix; searchIndex := searchIndex ix;
     lastUpdated := v; crawledUrls := crawledUrls ix;
     requests := requests ix |}.

Definition set_crawledUrls (v : gset string) (ix : Indexer) : Indexer :=
  {| datasets := datasets ix; apis := apis ix; documents := documents ix;
     contentSections := contentSections ix; searchIndex := searchIndex ix;
     lastUpdated := lastUpdated ix; crawledUrls := v;
     requests := requests ix |}.

Definition set_requests (v : list string) (ix : Indexer) : Indexer :=
  {| datasets := datasets ix; apis := apis ix; documents := documents ix;
     contentSections := contentSections ix; searchIndex := searchIndex ix;
     lastUpdated := lastUpdated ix; crawledUrls := crawledUrls ix;
     requests := v |}.

(** ** Section extraction *)

(** [tagName.match(/^H[1-6]$/)] followed by [parseInt(tagName.substring(1))]. *)
Definition headingLevelOfTag (tagName : string) : option nat :=
  match tagName with
  | String "H" (String d EmptyString) =>
      if (49 <=? Str.code d)%nat && (Str.code d <=? 54)%nat
      then Some (Str.code d - 48)%nat else None
  | _ => None
  end.

Definition isTextBlock (tagName : string) : bool :=
  String.eqb tagName "P" || String.eqb tagName "DIV" || String.eqb tagName "SECTION".

Definition isListBlock (tagName : string) : bool :=
  String.eqb tagName "UL" || String.eqb tagName "OL".

(** The [while] loop of [extractSectionContent]: [content] is the text
    gathered so far, [siblings] what [$current.next()] still yields. *)
Fixpoint collectContent (headingLevel : nat) (content : string)
    (siblings : list Element) : string :=
  match siblings with
  | [] => content
  | el :: rest =>
      let stop :=
        match headingLevelOfTag (el_tagName el) with
        | Some currentLevel => (currentLevel <=? headingLevel)%nat
        | None => false
        end in
      if stop then content
      else
        let content' :=
          if isTextBlock (el_tagName el)
          then content ++ Str.trim (el_text el) ++ " "
          else if isListBlock (el_tagName el)
          then fold_left (λ acc li, acc ++ Str.trim li ++ " ") (el_items el) content
          else content in
        collectContent headingLevel content' rest
  end.

Definition extractSectionContent (heading : HeadingNode) : string :=
  Str.substring0 1000 (Str.trim (collectContent (hd_level heading) EmptyString (hd_next heading))).

Definition locationNames : list string :=
  ["adelaide"; "melbourne"; "sydney"; "brisbane"; "perth"; "darwin"; "hobart"; "canberra"].

Definition topicNames : list string :=
  ["education"; "health"; "employment"; "housing"; "transport"; "environment";
   "economy"; "tourism"].

Definition govLevelNames : list string := ["federal"; "state"; "local"; "council"].

Definition extractSectionTags (title content : string) : list string :=
  let text := Str.toLowerCase (title ++ " " ++ content) in
  List.filter (Str.includes text) locationNames
  ++ List.filter (Str.includes text) topicNames
  ++ List.filter (Str.includes text) govLevelNames.

(** The loop of [generateSectionPath], over the sections from last to first. *)
Fixpoint sectionPathFrom (rev_sections : list PageSection) (currentLevel : nat)
    (path : list string) : list string :=
  match rev_sections with
  | [] => path
  | s :: rest =>
      if (ps_level s <? currentLevel)%nat
      then sectionPathFrom rest (ps_level s) (ps_title s :: path)
      else sectionPathFrom rest currentLevel path
  end.

Definition generateSectionPath (sections : list PageSection) (currentLevel : nat)
    : list string :=
  sectionPathFrom (rev sections) currentLevel [].

(** One turn of [headings.each] in [parsePageStructure]. *)
Definition addHeading (url : string) (sections : list PageSection)
    (h : HeadingNode) : list PageSection :=
  let headingText := Str.trim (hd_text h) in
  if (String.length headingText =? 0)%nat then sections
  else
    let content := extractSectionContent h in
    sections ++
      [ {| ps_id := generateSectionId headingText;
           ps_title := headingText;
           ps_content := content;
           ps_level := hd_level h;
           ps_path := generateSectionPath sections (hd_level h);
           ps_tags := extractSectionTags headingText content;
           ps_url := url ++ "#" ++ generateSectionId headingText |} ].

Record PageStructure := {
  pst_title : string;
  pst_description : string;
  pst_sections : list PageSection;
}.

Definition nonEmptyOr (a b : string) : string :=
  match a with EmptyString => b | _ => a end.

Definition parsePageStructure (pg : Page) (url : string) : PageStructure :=
  {| pst_title :=
       nonEmptyOr (Str.trim (pg_titleText pg))
         (nonEmptyOr (Str.trim (pg_firstH1 pg)) "Untitled");
     pst_description :=
       default EmptyString
         (Str.orElse (pg_metaDescription pg)
            (Str.orElse (pg_ogDescription pg)
               (Some (Str.substring0 200 (pg_firstParagraph pg)))));
     pst_sections := fold_left (addHeading url) (pg_headings pg) [] |}.

(** ** The structured crawler *)

(** [[...new Set(links)]]: the first occurrence of each link, in order. *)
Fixpoint uniqueFrom (seen : list string) (links : list string) : list string :=
  match links with
  | [] => []
  | l :: rest =>
      if bool_decide (l ∈ seen) then uniqueFrom seen rest
      else l :: uniqueFrom (l :: seen) rest
  end.

Definition unique (links : list string) : list string := uniqueFrom [] links.

Definition filterRelevantLinks (links : list string) (tags : list string)
    : list string :=
  List.filter
    (λ link,
       let url := Str.toLowerCase link in
       existsb (λ tag, Str.includes url (Str.toLowerCase tag)) tags
       || Str.includes url "data" || Str.includes url "api"
       || Str.includes url "statistics")
    links.

Definition maxDepthOf (options : CrawlOptions) : nat :=
  default maxCrawlDepth (opt_maxDepth options).

(** The record pushed on [contentSections] for one section of a page. *)
Definition sectionItem (now : N) (baseUrl : string) (options : CrawlOptions)
    (pageTitle : string) (s : PageSection) : Item :=
  {| item_id := Some (generateId (baseUrl ++ "#" ++ ps_id s));
     item_title := ps_title s;
     item_description := None;
     item_content := Some (ps_content s);
     item_source := opt_source options;
     item_type := "section";
     item_url := None;
     item_data := None;
     item_tags := opt_tags options ++ ps_tags s;
     item_lastUpdated := now;
     item_category := None;
     item_sections := [];
     item_parentUrl := Some baseUrl;
     item_parentTitle := Some pageTitle;
     item_level := Some (ps_level s);
     item_path := ps_path s |}.

(** The record pushed on [documents] for a crawled page. *)
Definition documentItem (now : N) (baseUrl : string) (options : CrawlOptions)
    (pg : Page) (st : PageStructure) : Item :=
  {| item_id := Some (generateId baseUrl);
     item_title := pst_title st;
     item_description := Some (pst_description st);
     item_content := Some (pg_data pg);
     item_source := opt_source options;
     item_type := "website";
     item_url := Some baseUrl;
     item_data := None;
     item_tags := opt_tags options;
     item_lastUpdated := now;
     item_category := None;
     item_sections := pst_sections st;
     item_parentUrl := None;
     item_parentTitle := None;
     item_level := None;
     item_path := [] |}.

Section Crawler.

(** The responses of the network, the URL parser ([new URL(href, base).href]
    and [new URL(u).hostname], [None] where the constructor throws) and the
    clock. *)
Variable fetch : World.
Variable resolve : string → string → option string.
Variable hostname : string → option string.
Variable now : N.

(** [await axios.get(url)]: the response, or [None] when the call throws;
    the request is recorded in both cases. *)
Definition request (url : string) (ix : Indexer) : option Page * Indexer :=
  (fetch url, set_requests (requests ix ++ [url]) ix).

(** The links a page offers to the crawl: same host, not crawled yet. An
    unparsable [baseUrl] throws before any link is read; the [catch] of
    [deepCrawlWebsite] then leaves the page without links to follow. *)
Definition extractInternalLinks (pg : Page) (baseUrl : string)
    (crawled : gset string) : list string :=
  match hostname baseUrl with
  | None => []
  | Some baseHost =>
      unique
        (omap
           (λ href,
              if negb (Str.truthy (Some href)) then None
              else
                absoluteUrl ← resolve href baseUrl;
                linkHost ← hostname absoluteUrl;
                if String.eqb linkHost baseHost
                   && negb (bool_decide (absoluteUrl ∈ crawled))
                then Some absoluteUrl else None)
           (pg_hrefs pg))
  end.

(** The links [deepCrawlWebsite] recurses into from a fetched page. *)
Definition linksToFollow (pg : Page) (baseUrl : string) (options : CrawlOptions)
    (crawled : gset string) : list string :=
  take 5 (filterRelevantLinks (extractInternalLinks pg baseUrl crawled)
            (opt_tags options)).

(** The effect of the body of the [try] up to the link loop: the document
    and its sections are stored. *)
Definition storePage (baseUrl : string) (options : CrawlOptions) (pg : Page)
    (ix : Indexer) : Indexer :=
  let pageStructure := parsePageStructure pg baseUrl in
  let ix1 :=
    set_documents
      (documents ix ++ [documentItem now baseUrl options pg pageStructure]) ix in
  set_contentSections
    (contentSections ix1
       ++ List.map (sectionItem now baseUrl options (pst_title pageStructure))
            (pst_sections pageStructure))
    ix1.

(** [deepCrawlWebsite], by recursion on the depth budget
    [maxDepth - currentDepth]: a budget of zero is the guard
    [currentDepth >= maxDepth], and each recursive call runs one level
    deeper with one unit less. *)
Fixpoint crawlWithin (budget : nat) (baseUrl : string) (options : CrawlOptions)
    (currentDepth : nat) (ix : Indexer) : Indexer :=
  match budget with
  | O => ix
  | S budget' =>
      if (maxDepthOf options <=? currentDepth)%nat
         || bool_decide (baseUrl ∈ crawledUrls ix)
      then ix
      else
        let ix1 := set_crawledUrls ({[ baseUrl ]} ∪ crawledUrls ix) ix in
        match request baseUrl ix1 with
        | (None, ix2) => ix2
        | (Some pg, ix2) =>
            let ix3 := storePage baseUrl options pg ix2 in
            if (currentDepth <? maxDepthOf options - 1)%nat
            then
              fold_left
                (λ acc link, crawlWithin budget' link options (currentDepth + 1) acc)
                (linksToFollow pg baseUrl options (crawledUrls ix3))
                ix3
            else ix3
        end
  end.

Definition deepCrawlWebsite (baseUrl : string) (options : CrawlOptions)
    (currentDepth : nat) (ix : Indexer) : Indexer :=
  crawlWithin (maxDepthOf options - currentDepth) baseUrl options currentDepth ix.

(** ** The fetch jobs *)

Definition apiItem (id title description type url : string) (data : string)
    (tags : list string) : Item :=
  {| item_id := Some id; item_title := title;
     item_description := Some description; item_content := None;
     item_source := "Australian Bureau of Statistics"; item_type := type;
     item_url := Some url; item_data := Some data; item_tags := tags;
     item_lastUpdated := now; item_category := None; item_sections := [];
     item_parentUrl := None; item_parentTitle := None; item_level := None;
     item_path := [] |}.

Definition absCodelistItem (data : string) : Item :=
  apiItem "abs-codelist-lga-2021" "ABS Local Government Areas 2021 Codelist"
    "Australian Bureau of Statistics Local Government Areas classification for 2021"
    "codelist" Endpoints.absCodelist data
    ["abs"; "local-government"; "geography"; "classification"].

Definition absDataflowItem (data : string) : Item :=
  apiItem "abs-dataflow-api" "ABS Data API - All Dataflows"
    "Complete list of available dataflows from the Australian Bureau of Statistics Data API"
    "api" Endpoints.absDataflow data ["abs"; "api"; "dataflow"; "statistics"].

Definition absOpenapiItem (data : string) : Item :=
  {| item_id := Some "abs-openapi-spec";
     item_title := "ABS Data API OpenAPI Specification";
     item_description :=
       Some "Technical documentation and API specification for the ABS Data API";
     item_content := Some data;
     item_source := "Australian Bureau of Statistics";
     item_type := "documentation";
     item_url := Some Endpoints.absOpenapi; item_data := None;
     item_tags := ["abs"; "api"; "documentation"; "openapi"; "specification"];
     item_lastUpdated := now; item_category := None; item_sections := [];
     item_parentUrl := None; item_parentTitle := None; item_level := None;
     item_path := [] |}.

(** [fetchABSData]: the three requests share one [try]; the first that
    throws keeps what was stored before it and skips the rest. *)
Definition fetchABSData (ix : Indexer) : Indexer :=
  match request Endpoints.absCodelist ix with
  | (None, ix1) => ix1
  | (Some codelistResponse, ix1) =>
      let ix2 :=
        if Str.truthy (Some (pg_data codelistResponse))
        then set_datasets
               (datasets ix1 ++ [absCodelistItem (pg_data codelistResponse)]) ix1
        else ix1 in
      match request Endpoints.absDataflow ix2 with
      | (None, ix3) => ix3
      | (Some dataflowResponse, ix3) =>
          let ix4 :=
            if Str.truthy (Some (pg_data dataflowResponse))
            then set_apis
                   (apis ix3 ++ [absDataflowItem (pg_data dataflowResponse)]) ix3
            else ix3 in
          match request Endpoints.absOpenapi ix4 with
          | (None, ix5) => ix5
          | (Some openapiResponse, ix5) =>
              if Str.truthy (Some (pg_data openapiResponse))
              then set_documents
                     (documents ix5 ++ [absOpenapiItem (pg_data openapiResponse)])
                     ix5
              else ix5
          end
      end
  end.

Definition dewrOptions : CrawlOptions :=
  {| opt_source := "Department of Employment and Workplace Relations";
     opt_tags := ["dewr"; "employment"; "workplace-relations"; "government"];
     opt_maxDepth := Some 2 |}.

Definition atoOptions : CrawlOptions :=
  {| opt_source := "Australian Taxation Office";
     opt_tags := ["ato"; "taxation"; "research"; "statistics"; "government"];
     opt_maxDepth := Some 2 |}.

Definition absStatsOptions : CrawlOptions :=
  {| opt_source := "Australian Bureau of Statistics";
     opt_tags := ["abs"; "statistics"; "data"; "government"; "census"];
     opt_maxDepth := Some 2 |}.

Definition fetchDEWRData (ix : Indexer) : Indexer :=
  deepCrawlWebsite Endpoints.dewr dewrOptions 0 ix.

Definition fetchATOData (ix : Indexer) : Indexer :=
  deepCrawlWebsite Endpoints.ato atoOptions 0 ix.

Definition fetchABSStatsData (ix : Indexer) : Indexer :=
  deepCrawlWebsite Endpoints.absStats absStatsOptions 0 ix.

(** [fetchAllData] starts the four jobs together and waits for all of them.
    The embedding runs them one after the other, in the order of the array
    of promises: the jobs write to the shared collections only by appending
    and their crawls start on three different hosts. *)
Definition fetchAllData (ix : Indexer) : Indexer :=
  fetchABSStatsData (fetchATOData (fetchDEWRData (fetchABSData ix))).

Definition allItems (ix : Indexer) : list Item :=
  List.map (withCategory "dataset") (datasets ix)
  ++ List.map (withCategory "api") (apis ix)
  ++ List.map (withCategory "document") (documents ix)
  ++ List.map (withCategory "section") (contentSections ix).

Definition buildSearchIndex (ix : Indexer) : Indexer :=
  set_searchIndex (Some (allItems ix)) ix.

Definition initialize (ix : Indexer) : Indexer :=
  set_lastUpdated (Some now) (buildSearchIndex (fetchAllData ix)).

Definition refreshData (ix : Indexer) : Indexer :=
  let cleared := set_documents [] (set_apis [] (set_datasets [] ix)) in
  set_lastUpdated (Some now) (buildSearchIndex (fetchAllData cleared)).

End Crawler.

Record Stats := {
  stats_datasets : nat;
  stats_apis : nat;
  stats_documents : nat;
  stats_total : nat;
  stats_lastUpdated : option N;
}.

Definition getStats (ix : Indexer) : Stats :=
  {| stats_datasets := List.length (datasets ix);
     stats_apis := List.length (apis ix);
     stats_documents := List.length (documents ix);
     stats_total := List.length (datasets ix) + List.length (apis ix) + List.length (documents ix);
     stats_lastUpdated := lastUpdated ix |}.

(** The object handed to [addCustomData]; the callers always set the text
    fields, an [id] or a [category] may be missing. *)
Record CustomData := {
  cd_id : option string;
  cd_title : string;
  cd_description : string;
  cd_source : string;
  cd_type : string;
  cd_category : option string;
  cd_tags : list string;
  cd_url : option string;
}.

Definition customItem (now : N) (data : CustomData) : Item :=
  {| item_id := Some (default ("custom-" ++ pretty now) (cd_id data));
     item_title := cd_title data;
     item_description := Some (cd_description data);
     item_content := None;
     item_source := cd_source data;
     item_type := cd_type data;
     item_url := cd_url data;
     item_data := None;
     item_tags := cd_tags data;
     item_lastUpdated := now;
     item_category :=
       Some (default "custom" (Str.orElse (cd_category data) None));
     item_sections := [];
     item_parentUrl := None; item_parentTitle := None; item_level := None;
     item_path := [] |}.

Definition addCustomData (now : N) (data : CustomData) (ix : Indexer)
    : Item * Indexer :=
  let item := customItem now data in
  let ix1 :=
    match cd_category data with
    | Some "dataset" => set_datasets (datasets ix ++ [item]) ix
    | Some "api" => set_apis (apis ix ++ [item]) ix
    | _ => set_documents (documents ix ++ [item]) ix
    end in
  (item, buildSearchIndex ix1).

(** ** Query analysis *)

Record QueryAnalysis := {
  qa_originalQuery : string;
  qa_words : list string;
  qa_locations : list string;
  qa_topics : list string;
  qa_govLevels : list string;
  qa_hasContext : bool;
  qa_isSpecific : bool;
}.

Definition nonEmpty {A : Type} (l : list A) : bool :=
  match l with [] => false | _ :: _ => true end.

Definition analyzeQuery (query : string) : QueryAnalysis :=
  let lowerQuery := Str.toLowerCase query in
  let detectedLocations := List.filter (Str.includes lowerQuery) locationNames in
  let detectedTopics := List.filter (Str.includes lowerQuery) topicNames in
  let detectedGovLevels := List.filter (Str.includes lowerQuery) govLevelNames in
  {| qa_originalQuery := query;
     qa_words := Str.splitWs lowerQuery;
     qa_locations := detectedLocations;
     qa_topics := detectedTopics;
     qa_govLevels := detectedGovLevels;
     qa_hasContext := nonEmpty detectedLocations || nonEmpty detectedTopics;
     qa_isSpecific := nonEmpty detectedLocations && nonEmpty detectedTopics |}.

(** ** Hits and their scores *)

Inductive SearchType := semantic | exact | fuzzy | partial.

Global Instance SearchType_eq_dec : EqDecision SearchType.
Proof. solve_decision. Defined.

(** One entry of the [matches] array reported by the fuzzy index. *)
Record FuseMatch := {
  fm_key : string;
  fm_value : string;
  fm_indices : list (nat * nat);
}.

(** A result of the fuzzy index: [score] is in [0, 1], lower is better. *)
Record FuseResult := {
  fr_item : Item;
  fr_score : Qc;
  fr_matches : list FuseMatch;
}.

(** An element of the [results] array of [search]: a result of the fuzzy
    index or of [searchWithContext], tagged with its strategy. *)
Record Hit := {
  hit_item : Item;
  hit_score : Qc;
  hit_matches : option (list FuseMatch);
  hit_contextScore : option Qc;
  hit_searchType : SearchType;
}.

(** A value of the [uniqueResults] map: [{...result, relevanceScore}]. *)
Record Ranked := {
  rk_hit : Hit;
  rk_relevanceScore : Qc;
}.

Definition num (z : Z) : Qc := Q2Qc (inject_Z z).

(** [Math.max(a, b)] *)
Definition Math_max (a b : Qc) : Qc := if decide (a ≤ b)%Qc then b else a.

Definition strategyBonus (t : SearchType) : Qc :=
  match t with
  | semantic => num 50
  | exact => num 40
  | fuzzy => num 20
  | partial => num 10
  end.

Definition isSection (it : Item) : bool :=
  bool_decide (item_category it = Some "section").

Definition calculateRelevanceScore (result : Hit) (queryAnalysis : QueryAnalysis)
    : Qc :=
  let score := num 100 in
  let score := (score + strategyBonus (hit_searchType result))%Qc in
  let score := (score - hit_score result * num 100)%Qc in
  let score :=
    match hit_contextScore result with
    | Some c => if bool_decide (c = num 0) then score else (score + c)%Qc
    | None => score
    end in
  let score :=
    if qa_isSpecific queryAnalysis && isSection (hit_item result)
    then (score + num 20)%Qc else score in
  Math_max (num 0) score.

(** ** The semantic strategy *)

Definition mentions (it : Item) (itemText : string) (term : string) : bool :=
  bool_decide (term ∈ item_tags it) || Str.includes itemText term.

Definition countMatching (it : Item) (itemText : string) (terms : list string)
    : Z :=
  Z.of_nat (List.length (List.filter (mentions it itemText) terms)).

Definition contextScoreOf (queryAnalysis : QueryAnalysis) (it : Item) : Z :=
  let itemText :=
    Str.toLowerCase
      (item_title it ++ " " ++
       default EmptyString
         (Str.orElse (item_content it)
            (Str.orElse (item_description it) (Some EmptyString)))) in
  (10 * countMatching it itemText (qa_locations queryAnalysis)
   + 8 * countMatching it itemText (qa_topics queryAnalysis)
   + 5 * countMatching it itemText (qa_govLevels queryAnalysis)
   + (if isSection it then 3 else 0))%Z.

(** A stable sort in descending order of [key], as [Array.prototype.sort]
    with the comparator [(a, b) => key(b) - key(a)]. *)
Fixpoint insertDesc {A : Type} (key : A → Qc) (x : A) (l : list A) : list A :=
  match l with
  | [] => [x]
  | y :: rest =>
      if decide (key x < key y)%Qc then y :: insertDesc key x rest
      else x :: y :: rest
  end.

Definition sortDesc {A : Type} (key : A → Qc) (l : list A) : list A :=
  foldr (insertDesc key) [] l.

Definition contextHit (queryAnalysis : QueryAnalysis) (it : Item) : option Hit :=
  let contextScore := contextScoreOf queryAnalysis it in
  if (0 <? contextScore)%Z
  then Some {| hit_item := it;
               hit_score := (num 1 / (num contextScore + num 1))%Qc;
               hit_matches := None;
               hit_contextScore := Some (num contextScore);
               hit_searchType := semantic |}
  else None.

(** [searchWithContext], with the tag ['semantic'] that [search] adds. *)
Definition searchWithContext (ix : Indexer) (queryAnalysis : QueryAnalysis)
    : list Hit :=
  sortDesc (λ h, default (num 0) (hit_contextScore h))
    (omap (contextHit queryAnalysis) (allItems ix)).

(** ** Merging the strategies *)

Definition fuseHit (t : SearchType) (r : FuseResult) : Hit :=
  {| hit_item := fr_item r; hit_score := fr_score r;
     hit_matches := Some (fr_matches r); hit_contextScore := None;
     hit_searchType := t |}.

(** [result.item.id || result.item.title] *)
Definition resultKey (result : Hit) : string :=
  default (item_title (hit_item result))
    (Str.orElse (item_id (hit_item result)) None).

(** The [Map] of [search]: keys in the order of their first insertion. *)
Definition ResultMap := list (string * Ranked).

Fixpoint mapGet (k : string) (m : ResultMap) : option Ranked :=
  match m with
  | [] => None
  | (k', v) :: rest => if String.eqb k k' then Some v else mapGet k rest
  end.

Fixpoint mapSet (k : string) (v : Ranked) (m : ResultMap) : ResultMap :=
  match m with
  | [] => [(k, v)]
  | (k', v') :: rest =>
      if String.eqb k k' then (k, v) :: rest else (k', v') :: mapSet k v rest
  end.

Definition rank (queryAnalysis : QueryAnalysis) (result : Hit) : Ranked :=
  {| rk_hit := result;
     rk_relevanceScore := calculateRelevanceScore result queryAnalysis |}.

(** The test of the [else if] in the merge loop. *)
Definition overrides (existingResult : Ranked) (result : Hit) : bool :=
  bool_decide (hit_searchType result = semantic)
  || (bool_decide (hit_score result < hit_score (rk_hit existingResult))%Qc
      && negb (bool_decide (hit_searchType result = partial))).

(** One turn of [results.forEach] over the [uniqueResults] map. *)
Definition mergeHit (queryAnalysis : QueryAnalysis) (uniqueResults : ResultMap)
    (result : Hit) : ResultMap :=
  let id := resultKey result in
  match mapGet id uniqueResults with
  | None => mapSet id (rank queryAnalysis result) uniqueResults
  | Some existingResult =>
      if overrides existingResult result
      then mapSet id (rank queryAnalysis result) uniqueResults
      else uniqueResults
  end.

Definition mergeHits (queryAnalysis : QueryAnalysis) (results : list Hit)
    : ResultMap :=
  fold_left (mergeHit queryAnalysis) results [].

(** [Array.from(uniqueResults.values())] *)
Definition mapValues (m : ResultMap) : list Ranked := List.map snd m.

(** ** The query engine *)

(** A JavaScript number as [search] can receive it for [limit]: the routes
    pass [Math.min(parseInt(limit), 100)] or [parseInt(limit) * 2], which is
    any integer or [NaN]; other callers may pass any number. *)
Inductive JsNumber :=
  | Finite (q : Qc)
  | NaN
  | PosInfinity
  | NegInfinity.

(** [ToIntegerOrInfinity] on a finite number: truncation towards zero. *)
Definition truncate (q : Qc) : Z := Z.quot (Qnum (this q)) (Zpos (Qden (this q))).

(** The index at which [array.slice(0, end)] stops, for an array of [len]
    elements: [NaN] counts as 0, a negative [end] counts from the end of
    the array, and the result stays within the array. *)
Definition sliceEnd (len : nat) (stop : JsNumber) : nat :=
  match stop with
  | NaN => 0
  | NegInfinity => 0
  | PosInfinity => len
  | Finite q =>
      let relativeEnd := truncate q in
      if (relativeEnd <? 0)%Z then Z.to_nat (Z.of_nat len + relativeEnd)
      else Nat.min (Z.to_nat relativeEnd) len
  end.

(** [array.slice(0, end)] *)
Definition slice0 {A : Type} (stop : JsNumber) (l : list A) : list A :=
  take (sliceEnd (List.length l) stop) l.

Record SearchOptions := {
  so_limit : option JsNumber;
  so_category : option string;
  so_source : option string;
  so_type : option string;
}.

(** One element of the [results] array of the response:
    [{...result.item, score, relevanceScore, matches, searchType, queryAnalysis}]. *)
Record SearchResult := {
  sr_item : Item;
  sr_score : Qc;
  sr_relevanceScore : Qc;
  sr_matches : option (list FuseMatch);
  sr_searchType : SearchType;
  sr_queryAnalysis : QueryAnalysis;
}.

Record SearchResponse := {
  resp_results : list SearchResult;
  resp_total : nat;
  resp_query : string;
  resp_filters : SearchOptions;
  resp_suggestions : option (list string);
}.

Definition quote : string := String (ascii_of_nat 34) EmptyString.

Definition generateSearchSuggestions (queryAnalysis : QueryAnalysis)
    (results : list Ranked) : list string :=
  let addLocation :=
    if nonEmpty (qa_topics queryAnalysis) && negb (nonEmpty (qa_locations queryAnalysis))
    then ["Try adding a location: " ++ quote ++ qa_originalQuery queryAnalysis
            ++ " in adelaide" ++ quote]
    else [] in
  let addTopic :=
    if nonEmpty (qa_locations queryAnalysis) && negb (nonEmpty (qa_topics queryAnalysis))
    then ["Try adding a topic: " ++ quote ++ "education "
            ++ qa_originalQuery queryAnalysis ++ quote]
    else [] in
  let resultTags := List.concat (List.map (λ r, item_tags (hit_item (rk_hit r))) results) in
  let commonTags := take 3 (unique resultTags) in
  let related :=
    if nonEmpty commonTags then ["Related topics: " ++ Str.join ", " commonTags]
    else [] in
  addLocation ++ addTopic ++ related.

(** A filter of [search]: applied only when the option is set and truthy. *)
Definition applyFilter (wanted : option string) (field : Ranked → option string)
    (results : list Ranked) : list Ranked :=
  if Str.truthy wanted
  then List.filter (λ r, bool_decide (field r = wanted)) results
  else results.

Definition toSearchResult (queryAnalysis : QueryAnalysis) (r : Ranked)
    : SearchResult :=
  {| sr_item := hit_item (rk_hit r);
     sr_score := hit_score (rk_hit r);
     sr_relevanceScore := rk_relevanceScore r;
     sr_matches := hit_matches (rk_hit r);
     sr_searchType := hit_searchType (rk_hit r);
     sr_queryAnalysis := queryAnalysis |}.

Definition emptyResponse (query : option string) (options : SearchOptions)
    : SearchResponse :=
  {| resp_results := []; resp_total := 0;
     resp_query := default EmptyString (Str.orElse query None);
     resp_filters := options; resp_suggestions := None |}.

Section Search.

(** [searchIndex.search(pattern)] of fuse.js, over the items the index was
    built from. *)
Variable fuseSearch : list Item → string → list FuseResult.

(** The [results] array before the merge: the hits of the four strategies
    in the order in which [search] pushes them. *)
Definition strategyHits (ix : Indexer) (index : list Item) (query : string)
    (queryAnalysis : QueryAnalysis) : list Hit :=
  let contextResults :=
    if qa_hasContext queryAnalysis then searchWithContext ix queryAnalysis
    else [] in
  let exactResults := fuseSearch index (quote ++ query ++ quote) in
  let fuzzyResults := fuseSearch index query in
  let words :=
    List.filter (λ word, (2 <? String.length word)%nat)
      (Str.splitWs (Str.toLowerCase query)) in
  contextResults
  ++ List.map (fuseHit exact) exactResults
  ++ List.map (fuseHit fuzzy) fuzzyResults
  ++ List.concat (List.map (λ word, List.map (fuseHit partial) (fuseSearch index word))
               words).

Definition search (ix : Indexer) (query : option string)
    (options : SearchOptions) : SearchResponse :=
  match searchIndex ix, Str.truthy query, query with
  | Some index, true, Some q =>
      let limit := default (Finite (num 50)) (so_limit options) in
      let queryAnalysis := analyzeQuery q in
      let results := strategyHits ix index q queryAnalysis in
      let results := mapValues (mergeHits queryAnalysis results) in
      let results :=
        applyFilter (so_category options)
          (λ r, item_category (hit_item (rk_hit r))) results in
      let results :=
        applyFilter (so_source options)
          (λ r, Some (item_source (hit_item (rk_hit r)))) results in
      let results :=
        applyFilter (so_type options)
          (λ r, Some (item_type (hit_item (rk_hit r)))) results in
      let results := sortDesc rk_relevanceScore results in
      let results := slice0 limit results in
      {| resp_results := List.map (toSearchResult queryAnalysis) results;
         resp_total := List.length results;
         resp_query := q;
         resp_filters := options;
         resp_suggestions :=
           Some (generateSearchSuggestions queryAnalysis results) |}
  | _, _, _ => emptyResponse query options
  end.

End Search.

(** ** Predicates used to state the properties *)

(** Characters that a slug is made of. *)
Definition isSlugChar (c : ascii) : bool := Str.isAlnum c || Ascii.eqb c hyphen.

Fixpoint slugChars (s : string) : bool :=
  match s with
  | EmptyString => true
  | String c s' => isSlugChar c && slugChars s'
  end.

Fixpoint noHyphenRun (s : string) : bool :=
  match s with
  | EmptyString => true
  | String c s' => negb (Ascii.eqb c hyphen && startsWithHyphen s') && noHyphenRun s'
  end.

Fixpoint endsWithHyphen (s : string) : bool :=
  match s with
  | EmptyString => false
  | String c EmptyString => Ascii.eqb c hyphen
  | String _ s' => endsWithHyphen s'
  end.

(** The shape of an identifier: lower-case letters and digits separated by
    single hyphens, with no hyphen at either end. *)
Definition isSlug (s : string) : bool :=
  slugChars s && noHyphenRun s && negb (startsWithHyphen s)
  && negb (endsWithHyphen s).

(** Two characters that differ at most in letter case, or that are both
    outside the letters and digits (punctuation, blanks, hyphens). *)
Definition sameCharUpToCasePunct (a b : ascii) : bool :=
  Ascii.eqb (Str.lowerChar a) (Str.lowerChar b)
  || (negb (Str.isAlnum (Str.lowerChar a)) && negb (Str.isAlnum (Str.lowerChar b))).

Fixpoint sameUpToCasePunct (s t : string) : bool :=
  match s, t with
  | EmptyString, EmptyString => true
  | String a s', String b t' => sameCharUpToCasePunct a b && sameUpToCasePunct s' t'
  | _, _ => false
  end.

Definition startsWithAlnum (s : string) : bool :=
  match s with
  | String c _ => Str.isAlnum c
  | EmptyString => false
  end.

(** The maximal runs of characters of [[a-z0-9]] in a string, in order. *)
Fixpoint alnumRuns (s : string) : list string :=
  match s with
  | EmptyString => []
  | String c s' =>
      if Str.isAlnum c
      then if startsWithAlnum s'
           then match alnumRuns s' with
                | w :: ws => String c w :: ws
                | [] => [String c EmptyString]
                end
           else String c EmptyString :: alnumRuns s'
      else alnumRuns s'
  end.

(** The id as the specification words it: the text in lower case, cut into
    its runs of letters and digits; the id joins these with single hyphens. *)
Definition slugWords (text : string) : list string :=
  alnumRuns (Str.toLowerCase text).

Fixpoint allAlnum (s : string) : bool :=
  match s with
  | EmptyString => true
  | String c s' => Str.isAlnum c && allAlnum s'
  end.

Fixpoint noneAlnum (s : string) : bool :=
  match s with
  | EmptyString => true
  | String c s' => negb (Str.isAlnum c) && noneAlnum s'
  end.

(** A text without letters and digits: punctuation, blanks, hyphens. *)
Definition isPunctuation (p : string) : bool := noneAlnum (Str.toLowerCase p).

(** [s] is the section that [parsePageStructure] builds for the heading [h]
    of the page at [url]. *)
Definition sectionOfHeading (url : string) (h : HeadingNode) (s : PageSection)
    : Prop :=
  ps_title s = Str.trim (hd_text h)
  ∧ ps_title s ≠ EmptyString
  ∧ ps_id s = generateSectionId (ps_title s)
  ∧ ps_content s = extractSectionContent h
  ∧ ps_level s = hd_level h
  ∧ ps_url s = url ++ "#" ++ ps_id s.

(** The headings that produce a section: those with text left after [trim]. *)
Definition hasText (h : HeadingNode) : bool :=
  negb (String.length (Str.trim (hd_text h)) =? 0)%nat.

Module Samples.

Definition paragraph (text : string) : Element :=
  {| el_tagName := "P"; el_text := text; el_items := [] |}.

Definition longTitleA : string :=
  "Employment and workplace relations statistics for Adelaide 2021".

Definition longTitleB : string :=
  "Employment and workplace relations statistics for Adelaide 2022".

Definition twoHeadings : Page :=
  {| pg_data := "<html>"; pg_titleText := "Reports"; pg_firstH1 := EmptyString;
     pg_metaDescription := None; pg_ogDescription := None;
     pg_firstParagraph := "Annual figures";
     pg_headings :=
       [ {| hd_level := 2; hd_text := longTitleA;
            hd_next := [paragraph "Annual figures"] |};
         {| hd_level := 2; hd_text := longTitleB;
            hd_next := [paragraph "Later figures"] |} ];
     pg_hrefs := [] |}.

End Samples.

(** The terms of the composite score, as the specification names them. *)
Definition contextBonus (result : Hit) : Qc :=
  default (num 0) (hit_contextScore result).

Definition specificSectionBonus (queryAnalysis : QueryAnalysis) (result : Hit) : Qc :=
  if qa_isSpecific queryAnalysis && isSection (hit_item result)
  then num 20 else num 0.

(** Two hits for the same record with the same raw and context scores. *)
Definition sameButStrategy (h1 h2 : Hit) : Prop :=
  hit_item h1 = hit_item h2
  ∧ hit_score h1 = hit_score h2
  ∧ hit_contextScore h1 = hit_contextScore h2.

(** The range of the scores that the strategies produce: a raw score in
    [0, 1] and a context score, where there is one, that is not negative. *)
Definition wellScored (h : Hit) : Prop :=
  (num 0 ≤ hit_score h)%Qc ∧ (hit_score h ≤ num 1)%Qc
  ∧ ∀ c, hit_contextScore h = Some c → (num 0 ≤ c)%Qc.

(** semantic, exact, fuzzy, partial in this order of priority. *)
Definition outranks (t1 t2 : SearchType) : bool :=
  match t1, t2 with
  | semantic, (exact | fuzzy | partial) => true
  | exact, (fuzzy | partial) => true
  | fuzzy, partial => true
  | _, _ => false
  end.

Module ScoreSamples.

Definition record : Item :=
  {| item_id := Some "abs-codelist-lga-2021";
     item_title := "ABS Local Government Areas 2021 Codelist";
     item_description := Some "Local Government Areas classification for 2021";
     item_content := None; item_source := "Australian Bureau of Statistics";
     item_type := "codelist"; item_url := None; item_data := None;
     item_tags := ["abs"; "local-government"]; item_lastUpdated := 0%N;
     item_category := Some "dataset"; item_sections := [];
     item_parentUrl := None; item_parentTitle := None; item_level := None;
     item_path := [] |}.

Definition hitOf (t : SearchType) (score : Qc) : Hit :=
  {| hit_item := record; hit_score := score; hit_matches := None;
     hit_contextScore := None; hit_searchType := t |}.

Definition quarter : Qc := Q2Qc (1 # 4).

End ScoreSamples.

(** The merge seen from one key: what the map holds for the key after one
    more hit with that key. *)
Definition mergeOne (queryAnalysis : QueryAnalysis) (stored : option Ranked)
    (result : Hit) : option Ranked :=
  match stored with
  | None => Some (rank queryAnalysis result)
  | Some existingResult =>
      if overrides existingResult result
      then Some (rank queryAnalysis result) else Some existingResult
  end.

Definition hasKey (k : string) (result : Hit) : bool :=
  String.eqb (resultKey result) k.

(** What the map holds: keys without repetition, each value stored under
    the key of its own hit. *)
Definition mapWellFormed (m : ResultMap) : Prop :=
  NoDup (List.map fst m) ∧ Forall (λ kv, resultKey (rk_hit (snd kv)) = fst kv) m.

Module MergeSamples.

Definition half : Qc := Q2Qc (1 # 2).
Definition fifth : Qc := Q2Qc (1 # 5).

(** The exact-phrase strategy and the fuzzy strategy both hit the record,
    the fuzzy one with the better (lower) raw score. *)
Definition exactHit : Hit := ScoreSamples.hitOf exact half.
Definition fuzzyHit : Hit := ScoreSamples.hitOf fuzzy fifth.
Definition partialHit : Hit := ScoreSamples.hitOf partial fifth.

Definition query : QueryAnalysis := analyzeQuery "local government".

End MergeSamples.

(** ** The link graph of a world *)

Section Links.

Variable fetch : World.
Variable resolve : string → string → option string.

(** The page at [u] answers and has a link that resolves to [v]. *)
Definition linked (u v : string) : Prop :=
  ∃ pg href, fetch u = Some pg ∧ href ∈ pg_hrefs pg ∧ resolve href u = Some v.

(** [v] is reached from [u] by following [n] links. *)
Inductive hops : nat → string → string → Prop :=
  | hops_here u : hops 0 u u
  | hops_step n u v w : linked u v → hops n v w → hops (S n) u w.

(** A document of the page at [url], found [k] links away from [baseUrl],
    where [k] stays below the depth that is left. *)
Definition withinDepth (options : CrawlOptions) (baseUrl : string)
    (currentDepth : nat) (doc : Item) : Prop :=
  ∃ url k, item_url doc = Some url
           ∧ (currentDepth + k < maxDepthOf options)%nat
           ∧ hops k baseUrl url.

End Links.

(** ** What a refresh fetches *)

(** The datasets that one run of [fetchABSData] stores: the codelist, when
    its request answers with data. *)
Definition fetchedDatasets (fetch : World) (now : N) : list Item :=
  match fetch Endpoints.absCodelist with
  | Some pg =>
      if Str.truthy (Some (pg_data pg)) then [absCodelistItem now (pg_data pg)]
      else []
  | None => []
  end.


(** ** A small world for the examples *)

Module CrawlSamples.

Definition dataUrl : string := "https://www.dewr.gov.au/data".
Definition deeperUrl : string := "https://www.dewr.gov.au/data/archive".

Definition pageWith (title : string) (hrefs : list string) : Page :=
  {| pg_data := "<html>"; pg_titleText := title; pg_firstH1 := EmptyString;
     pg_metaDescription := None; pg_ogDescription := None;
     pg_firstParagraph := "Annual figures";
     pg_headings :=
       [ {| hd_level := 2; hd_text := "Employment in Adelaide";
            hd_next := [Samples.paragraph "Annual figures"] |} ];
     pg_hrefs := hrefs |}.

(** Only the DEWR site answers: its home page links to a data page, which
    links to an archive page; the other seeds and the ABS API fail. *)
Definition fetch : World :=
  λ url,
    if String.eqb url Endpoints.dewr
    then Some (pageWith "DEWR" ["/data"; "/about"; "https://example.org/data"])
    else if String.eqb url dataUrl then Some (pageWith "Data" ["/data/archive"])
    else if String.eqb url deeperUrl then Some (pageWith "Archive" [])
    else None.

Definition offline : World := λ _, None.

Definition resolve (href base : string) : option string :=
  if Str.startsWith "https://" href then Some href
  else Some ("https://www.dewr.gov.au" ++ href).

Definition hostname (url : string) : option string :=
  if Str.startsWith "https://www.dewr.gov.au/" url then Some "www.dewr.gov.au"
  else Some "example.org".

Definition started : Indexer := initialize fetch resolve hostname 1 newIndexer.

Definition refreshed : Indexer := refreshData fetch resolve hostname 2 started.


End CrawlSamples.

(** ** A small index for the examples *)

Module SearchSamples.

(** A stand-in for the fuzzy index: it finds the items whose title contains
    the pattern (a pattern in double quotes is taken without them), each
    with raw score 0. *)
Definition unquote (pattern : string) : string :=
  if Str.startsWith quote pattern
  then Str.substring0 (String.length pattern - 2)
         (match pattern with String _ rest => rest | EmptyString => EmptyString end)
  else pattern.

Definition titleIndex (index : list Item) (pattern : string) : list FuseResult :=
  List.map (λ it, {| fr_item := it; fr_score := num 0; fr_matches := [] |})
    (List.filter (λ it, Str.includes (item_title it) (unquote pattern)) index).

(** A record whose title has a run of three blanks. *)
Definition spaced : Item :=
  {| item_id := Some "census-2021"; item_title := "Census   2021";
     item_description := Some "Census tables"; item_content := None;
     item_source := "Australian Bureau of Statistics"; item_type := "codelist";
     item_url := None; item_data := None; item_tags := ["abs"];
     item_lastUpdated := 0%N; item_category := None; item_sections := [];
     item_parentUrl := None; item_parentTitle := None; item_level := None;
     item_path := [] |}.

Definition indexer : Indexer := buildSearchIndex (set_datasets [spaced] newIndexer).

Definition noOptions : SearchOptions :=
  {| so_limit := None; so_category := None; so_source := None; so_type := None |}.

End SearchSamples.

(** ** Predicates for the properties of the crawler *)

(** The test of [filterRelevantLinks] on one link. *)
Definition isRelevantLink (tags : list string) (link : string) : bool :=
  let url := Str.toLowerCase link in
  existsb (λ tag, Str.includes url (Str.toLowerCase tag)) tags
  || Str.includes url "data" || Str.includes url "api"
  || Str.includes url "statistics".

(** From [ix] to [ix'] the requests [new] were issued, each for a URL that
    was not visited before, and the visited set grew by exactly these. *)
Definition crawlGrowth (ix ix' : Indexer) (new : list string) : Prop :=
  requests ix' = (requests ix ++ new)%list
  ∧ crawledUrls ix' = crawledUrls ix ∪ list_to_set new
  ∧ NoDup new
  ∧ ∀ u, u ∈ new → u ∉ crawledUrls ix.

(** The largest number of pages of a crawl with [budget] levels and at most
    five links followed per page: [1 + 5 + ... + 5^(budget-1)]. *)
Fixpoint maxRequests (budget : nat) : nat :=
  match budget with
  | O => 0
  | S budget' => 1 + 5 * maxRequests budget'
  end.

(** ** Predicates for the properties of search *)

(** [item.id || item.title] *)
Definition itemKey (it : Item) : string :=
  default (item_title it) (Str.orElse (item_id it) None).

(** The ranked list that [search] turns into its response: the merged hits
    after the filters, the sort and the limit. *)
Definition rankedResults (fuseSearch : list Item → string → list FuseResult)
    (ix : Indexer) (index : list Item) (q : string) (options : SearchOptions)
    : list Ranked :=
  let queryAnalysis := analyzeQuery q in
  slice0 (default (Finite (num 50)) (so_limit options))
    (sortDesc rk_relevanceScore
       (applyFilter (so_type options)
          (λ r, Some (item_type (hit_item (rk_hit r))))
          (applyFilter (so_source options)
             (λ r, Some (item_source (hit_item (rk_hit r))))
             (applyFilter (so_category options)
                (λ r, item_category (hit_item (rk_hit r)))
                (mapValues
                   (mergeHits queryAnalysis
                      (strategyHits fuseSearch ix index q queryAnalysis))))))).

(** Descending order of a score. *)
Definition descendingBy {A : Type} (key : A → Qc) (l : list A) : Prop :=
  StronglySorted (λ a b, (key b ≤ key a)%Qc) l.

(** The categories that [buildSearchIndex] stamps on the items. *)
Definition indexCategories : list string := ["dataset"; "api"; "document"; "section"].

(** The fuzzy index answers with items it was built from. *)
Definition answersFromIndex (fuseSearch : list Item → string → list FuseResult)
    : Prop :=
  ∀ index pattern r, r ∈ fuseSearch index pattern → fr_item r ∈ index.

(** The collection that [addCustomData] puts an item in. *)
Definition collectionOf (data : CustomData) : string :=
  match cd_category data with
  | Some "dataset" => "dataset"
  | Some "api" => "api"
  | _ => "document"
  end.

(** [item] appended to the collection named [c]. *)
Definition storeIn (c : string) (item : Item) (ix : Indexer) : Indexer :=
  if String.eqb c "dataset" then set_datasets (datasets ix ++ [item]) ix
  else if String.eqb c "api" then set_apis (apis ix ++ [item]) ix
  else set_documents (documents ix ++ [item]) ix.

Module CustomSamples.

Definition customOptions : SearchOptions :=
  {| so_limit := None; so_category := Some "custom"; so_source := None;
     so_type := None |}.

Definition note : CustomData :=
  {| cd_id := None; cd_title := "Census   2021"; cd_description := "Uploaded note";
     cd_source := "Upload"; cd_type := "file"; cd_category := None;
     cd_tags := ["uploaded"]; cd_url := None |}.

Definition withNote : Indexer := snd (addCustomData 7 note newIndexer).

End CustomSamples.

(** The raw scores of the fuzzy index lie in [0, 1]. *)
Definition scoresInRange (fuseSearch : list Item → string → list FuseResult)
    : Prop :=
  ∀ index pattern r, r ∈ fuseSearch index pattern →
    (num 0 ≤ fr_score r)%Qc ∧ (fr_score r ≤ num 1)%Qc.

Definition locationSuggestion (query : string) : string :=
  "Try adding a location: " ++ quote ++ query ++ " in adelaide" ++ quote.

Definition topicSuggestion (query : string) : string :=
  "Try adding a topic: " ++ quote ++ "education " ++ query ++ quote.

(** The same options with another limit. *)
Definition withLimit (limit : option JsNumber) (options : SearchOptions)
    : SearchOptions :=
  {| so_limit := limit; so_category := so_category options;
     so_source := so_source options; so_type := so_type options |}.

(** The tags of the results, in order, as [generateSearchSuggestions]
    gathers them. *)
Definition resultTags (results : list Ranked) : list string :=
  List.concat (List.map (λ r, item_tags (hit_item (rk_hit r))) results).

Definition relatedSuggestion (results : list Ranked) : string :=
  "Related topics: " ++ Str.join ", " (take 3 (unique (resultTags results))).

(** The entry for related topics: present exactly when a result has a tag. *)
Definition relatedPart (results : list Ranked) : list string :=
  match resultTags results with
  | [] => []
  | _ :: _ => [relatedSuggestion results]
  end.

Module LimitSamples.

Definition dropLast : SearchOptions :=
  {| so_limit := Some (Finite (num (-1))); so_category := None;
     so_source := None; so_type := None |}.

End LimitSamples.

(** * Properties *)

(** ** Identifier slugs *)

Section SlugFacts.

Local Arguments Ascii.eqb : simpl never.

Lemma lowerChar_slugChar c : isSlugChar c = true → Str.lowerChar c = c.
Proof.
  destruct c as [[] [] [] [] [] [] [] []]; vm_compute; congruence.
Qed.

Lemma slugChars_toLowerCase s : slugChars s = true → Str.toLowerCase s = s.
Proof.
  unfold Str.toLowerCase.
  induction s as [|c s IH]; simpl; [done|].
  intros [Hc Hs]%andb_true_iff.
  by rewrite lowerChar_slugChar, IH.
Qed.

Lemma slugChars_replaceNonAlnum s : slugChars s = true → replaceNonAlnum s = s.
Proof.
  unfold replaceNonAlnum.
  induction s as [|c s IH]; simpl; [done|].
  intros [Hc Hs]%andb_true_iff.
  rewrite IH by done.
  unfold isSlugChar in Hc. destruct (Str.isAlnum c); [done|].
  simpl in Hc. apply Ascii.eqb_eq in Hc. by subst.
Qed.

Lemma noHyphenRun_collapseHyphens s : noHyphenRun s = true → collapseHyphens s = s.
Proof.
  induction s as [|c s IH]; simpl; [done|].
  intros [Hc Hs]%andb_true_iff. apply negb_true_iff in Hc.
  rewrite Hc. by rewrite IH.
Qed.

Lemma stripLeadingHyphen_fix s :
  startsWithHyphen s = false → stripLeadingHyphen s = s.
Proof.
  destruct s as [|c s]; simpl; [done|]. by intros ->.
Qed.

Lemma stripTrailingHyphen_fix s :
  endsWithHyphen s = false → stripTrailingHyphen s = s.
Proof.
  induction s as [|c s IH]; simpl; [done|].
  destruct s as [|d s]; [by intros ->|].
  intros H. by rewrite IH.
Qed.

Lemma isSlug_generateId_fix s : isSlug s = true → generateId s = s.
Proof.
  unfold isSlug. rewrite !andb_true_iff, !negb_true_iff.
  intros [[[Hc Hr] Hl] Ht]. unfold generateId, stripEdgeHyphens.
  rewrite slugChars_toLowerCase, slugChars_replaceNonAlnum by done.
  rewrite noHyphenRun_collapseHyphens by done.
  by rewrite stripLeadingHyphen_fix, stripTrailingHyphen_fix.
Qed.

Lemma slugChars_after_replace s : slugChars (replaceNonAlnum s) = true.
Proof.
  unfold replaceNonAlnum.
  induction s as [|c s IH]; simpl; [done|].
  rewrite IH, andb_true_r.
  unfold isSlugChar. destruct (Str.isAlnum c) eqn:E; [by rewrite E|done].
Qed.

Lemma startsWith_hyphen_collapse s :
  startsWithHyphen (collapseHyphens s) = startsWithHyphen s.
Proof.
  induction s as [|c s IH]; simpl; [done|].
  destruct (Ascii.eqb c hyphen) eqn:E; simpl.
  - apply Ascii.eqb_eq in E. subst c.
    destruct (startsWithHyphen s) eqn:F; [|done].
    rewrite IH. by destruct s.
  - done.
Qed.

Lemma slugChars_collapse s : slugChars s = true → slugChars (collapseHyphens s) = true.
Proof.
  induction s as [|c s IH]; simpl; [done|].
  intros [Hc Hs]%andb_true_iff.
  destruct (Ascii.eqb c hyphen && startsWithHyphen s); simpl; [by apply IH|].
  by rewrite Hc, IH.
Qed.

Lemma noHyphenRun_collapse s : noHyphenRun (collapseHyphens s) = true.
Proof.
  induction s as [|c s IH]; simpl; [done|].
  destruct (Ascii.eqb c hyphen && startsWithHyphen s) eqn:E; simpl; [done|].
  by rewrite startsWith_hyphen_collapse, E, IH.
Qed.

Lemma slugChars_stripLeading s :
  slugChars s = true → slugChars (stripLeadingHyphen s) = true.
Proof.
  destruct s as [|c s]; simpl; [done|].
  intros [Hc Hs]%andb_true_iff.
  destruct (Ascii.eqb c hyphen); simpl; [done|]. by rewrite Hc, Hs.
Qed.

Lemma noHyphenRun_stripLeading s :
  noHyphenRun s = true → noHyphenRun (stripLeadingHyphen s) = true.
Proof.
  destruct s as [|c s]; simpl; [done|].
  intros [Hc Hs]%andb_true_iff.
  destruct (Ascii.eqb c hyphen) eqn:E; simpl; [done|]. by rewrite E, Hs.
Qed.

Lemma startsWith_stripLeading s :
  noHyphenRun s = true → startsWithHyphen (stripLeadingHyphen s) = false.
Proof.
  destruct s as [|c s]; simpl; [done|].
  intros [Hc Hs]%andb_true_iff. apply negb_true_iff in Hc.
  destruct (Ascii.eqb c hyphen) eqn:E; simpl in *; done.
Qed.

Lemma stripTrailingHyphen_cons c d s :
  stripTrailingHyphen (String c (String d s))
  = String c (stripTrailingHyphen (String d s)).
Proof. reflexivity. Qed.

Lemma slugChars_cons c s : slugChars (String c s) = isSlugChar c && slugChars s.
Proof. reflexivity. Qed.

Lemma noHyphenRun_cons c s :
  noHyphenRun (String c s)
  = negb (Ascii.eqb c hyphen && startsWithHyphen s) && noHyphenRun s.
Proof. reflexivity. Qed.

Lemma slugChars_stripTrailing s :
  slugChars s = true → slugChars (stripTrailingHyphen s) = true.
Proof.
  induction s as [|c s IH]; [done|].
  rewrite slugChars_cons. intros [Hc Hs]%andb_true_iff.
  destruct s as [|d s].
  - simpl. destruct (Ascii.eqb c hyphen); simpl; [done|]. by rewrite Hc.
  - rewrite stripTrailingHyphen_cons, slugChars_cons, Hc. by apply IH.
Qed.

Lemma startsWith_stripTrailing s :
  startsWithHyphen s = false → startsWithHyphen (stripTrailingHyphen s) = false.
Proof.
  destruct s as [|c [|d s]]; simpl; [done| |done].
  intros H. rewrite H. simpl. by rewrite H.
Qed.

Lemma noHyphenRun_stripTrailing s :
  noHyphenRun s = true → noHyphenRun (stripTrailingHyphen s) = true.
Proof.
  induction s as [|c s IH]; [done|].
  rewrite noHyphenRun_cons. intros [Hc Hs]%andb_true_iff.
  destruct s as [|d s].
  - simpl. destruct (Ascii.eqb c hyphen) eqn:E; simpl; by rewrite ?E.
  - rewrite stripTrailingHyphen_cons, noHyphenRun_cons, IH, andb_true_r by done.
    apply negb_true_iff in Hc. apply negb_true_iff.
    destruct (Ascii.eqb c hyphen); [|done].
    by apply startsWith_stripTrailing.
Qed.

Lemma stripTrailingHyphen_empty s :
  stripTrailingHyphen s = EmptyString → s = EmptyString ∨ s = "-".
Proof.
  destruct s as [|c [|d s]]; simpl; [by left| |done].
  destruct (Ascii.eqb c hyphen) eqn:E; [|done].
  apply Ascii.eqb_eq in E. subst c. by right.
Qed.

Lemma endsWithHyphen_stripTrailing s :
  noHyphenRun s = true → endsWithHyphen (stripTrailingHyphen s) = false.
Proof.
  induction s as [|c s IH]; [done|].
  rewrite noHyphenRun_cons. intros [Hc Hs]%andb_true_iff.
  apply negb_true_iff in Hc.
  destruct s as [|d s].
  - simpl. destruct (Ascii.eqb c hyphen) eqn:E; [done|]. simpl. by rewrite E.
  - rewrite stripTrailingHyphen_cons. specialize (IH Hs).
    destruct (stripTrailingHyphen (String d s)) as [|e r] eqn:F; [|done].
    apply stripTrailingHyphen_empty in F as [F|F]; [done|].
    injection F as -> ->. simpl in *.
    by destruct (Ascii.eqb c hyphen).
Qed.

Lemma isSlug_generateId s : isSlug (generateId s) = true.
Proof.
  unfold generateId, stripEdgeHyphens.
  set (r := collapseHyphens (replaceNonAlnum (Str.toLowerCase s))).
  assert (Hc : slugChars r = true)
    by apply slugChars_collapse, slugChars_after_replace.
  assert (Hr : noHyphenRun r = true) by apply noHyphenRun_collapse.
  unfold isSlug. rewrite !andb_true_iff, !negb_true_iff. repeat split.
  - by apply slugChars_stripTrailing, slugChars_stripLeading.
  - by apply noHyphenRun_stripTrailing, noHyphenRun_stripLeading.
  - by apply startsWith_stripTrailing, startsWith_stripLeading.
  - by apply endsWithHyphen_stripTrailing, noHyphenRun_stripLeading.
Qed.

Lemma sameChar_normalised a b :
  sameCharUpToCasePunct a b = true →
  (if Str.isAlnum (Str.lowerChar a) then Str.lowerChar a else hyphen)
  = (if Str.isAlnum (Str.lowerChar b) then Str.lowerChar b else hyphen).
Proof.
  unfold sameCharUpToCasePunct. intros [H|H]%orb_true_iff.
  - apply Ascii.eqb_eq in H. by rewrite H.
  - apply andb_true_iff in H as [Ha Hb].
    apply negb_true_iff in Ha, Hb. by rewrite Ha, Hb.
Qed.

Lemma sameUpToCasePunct_generateId s t :
  sameUpToCasePunct s t = true → generateId s = generateId t.
Proof.
  intros H. unfold generateId. do 2 f_equal.
  revert t H. induction s as [|a s IH]; intros [|b t]; simpl; try done.
  intros [Hc Hs]%andb_true_iff.
  unfold replaceNonAlnum, Str.toLowerCase in *. simpl.
  by rewrite (sameChar_normalised a b), (IH t).
Qed.

Lemma toLowerCase_app a b :
  Str.toLowerCase (a ++ b) = Str.toLowerCase a ++ Str.toLowerCase b.
Proof.
  unfold Str.toLowerCase. induction a as [|c a IH]; simpl; [done|].
  by rewrite IH.
Qed.

Lemma isAlnum_not_hyphen c : Str.isAlnum c = true → Ascii.eqb c hyphen = false.
Proof.
  intros H. destruct (Ascii.eqb_spec c hyphen) as [->|]; [|done].
  by vm_compute in H.
Qed.

Lemma slugChar_cases c :
  isSlugChar c = true →
  (Str.isAlnum c = true ∧ Ascii.eqb c hyphen = false)
  ∨ (Str.isAlnum c = false ∧ c = hyphen).
Proof.
  unfold isSlugChar. destruct (Str.isAlnum c) eqn:E; simpl.
  - intros _. left. split; [done|]. by apply isAlnum_not_hyphen.
  - intros ->%Ascii.eqb_eq. by right.
Qed.

Lemma alnumRuns_cons c s :
  alnumRuns (String c s)
  = if Str.isAlnum c
    then if startsWithAlnum s
         then match alnumRuns s with
              | w :: ws => String c w :: ws
              | [] => [String c EmptyString]
              end
         else String c EmptyString :: alnumRuns s
    else alnumRuns s.
Proof. reflexivity. Qed.

Lemma collapseHyphens_cons c s :
  collapseHyphens (String c s)
  = if Ascii.eqb c hyphen && startsWithHyphen s then collapseHyphens s
    else String c (collapseHyphens s).
Proof. reflexivity. Qed.

Lemma collapseHyphens_empty s : collapseHyphens s = EmptyString → s = EmptyString.
Proof.
  induction s as [|c s IH]; [done|]. rewrite collapseHyphens_cons.
  destruct (Ascii.eqb c hyphen && startsWithHyphen s) eqn:E; [|done].
  intros H. apply IH in H. subst s. by rewrite andb_false_r in E.
Qed.

Lemma stripTrailingHyphen_cons_nonempty c x :
  x ≠ EmptyString →
  stripTrailingHyphen (String c x) = String c (stripTrailingHyphen x).
Proof. by destruct x. Qed.

Lemma alnumRuns_nonempty s :
  startsWithAlnum s = true → ∃ w ws, alnumRuns s = w :: ws.
Proof.
  destruct s as [|c s]; [done|]. cbn [startsWithAlnum]. intros Hc.
  rewrite alnumRuns_cons, Hc.
  destruct (startsWithAlnum s); [destruct (alnumRuns s)|]; eauto.
Qed.

Lemma alnumRuns_head s :
  match alnumRuns s with
  | w :: _ => startsWithAlnum w = true
  | [] => True
  end.
Proof.
  induction s as [|c s IH]; [done|]. rewrite alnumRuns_cons.
  destruct (Str.isAlnum c) eqn:E; [|done].
  destruct (startsWithAlnum s); [destruct (alnumRuns s)|]; done.
Qed.

Lemma join_cons_char sep c w ws :
  Str.join sep (String c w :: ws) = String c (Str.join sep (w :: ws)).
Proof. by destruct ws. Qed.

Lemma startsWithHyphen_join_runs s :
  startsWithHyphen (Str.join "-" (alnumRuns s)) = false.
Proof.
  pose proof (alnumRuns_head s) as H.
  destruct (alnumRuns s) as [|[|c w] ws]; [done..|].
  rewrite join_cons_char. cbn [startsWithHyphen].
  by apply isAlnum_not_hyphen.
Qed.

Lemma stripTrailing_collapse r :
  slugChars r = true →
  stripTrailingHyphen (collapseHyphens r)
  = (if startsWithHyphen r && nonEmpty (alnumRuns r) then "-" else EmptyString)
    ++ Str.join "-" (alnumRuns r).
Proof.
  induction r as [|c r IH]; [done|].
  rewrite slugChars_cons. intros [Hc Hr]%andb_true_iff. specialize (IH Hr).
  rewrite collapseHyphens_cons, alnumRuns_cons. cbn [startsWithHyphen].
  destruct (slugChar_cases c Hc) as [[Ha Hh]|[Ha ->]]; rewrite Ha.
  - rewrite Hh. cbn [andb].
    destruct r as [|d r]; [simpl; by rewrite Hh|].
    rewrite stripTrailingHyphen_cons_nonempty
      by (intros E; by apply collapseHyphens_empty in E).
    rewrite IH. apply andb_true_iff in Hr as [Hd _].
    cbn [startsWithAlnum startsWithHyphen].
    destruct (slugChar_cases d Hd) as [[Hda Hdh]|[Hda ->]]; rewrite Hda.
    + rewrite Hdh. cbn [andb].
      destruct (alnumRuns_nonempty (String d r) Hda) as (w & ws & E).
      rewrite E. by rewrite join_cons_char.
    + change (Ascii.eqb hyphen hyphen) with true. cbn [andb].
      by destruct (alnumRuns (String hyphen r)) as [|w ws].
  - change (Ascii.eqb hyphen hyphen) with true. cbn [andb].
    destruct (startsWithHyphen r) eqn:Hs; [exact IH|].
    destruct r as [|d r]; [done|].
    rewrite stripTrailingHyphen_cons_nonempty
      by (intros E; by apply collapseHyphens_empty in E).
    rewrite IH. cbn [andb].
    apply andb_true_iff in Hr as [Hd _]. cbn [startsWithHyphen] in Hs.
    destruct (slugChar_cases d Hd) as [[Hda _]|[_ ->]]; [|done].
    destruct (alnumRuns_nonempty (String d r) Hda) as (w & ws & E).
    by rewrite E.
Qed.

Lemma stripEdgeHyphens_comm x :
  stripTrailingHyphen (stripLeadingHyphen x)
  = stripLeadingHyphen (stripTrailingHyphen x).
Proof.
  destruct x as [|c [|d x]]; [done| |].
  - simpl. by destruct (Ascii.eqb c hyphen) eqn:E; simpl; rewrite ?E.
  - rewrite stripTrailingHyphen_cons. simpl.
    destruct (Ascii.eqb c hyphen); [done|]. by rewrite stripTrailingHyphen_cons.
Qed.

Lemma startsWithAlnum_replace s :
  startsWithAlnum (replaceNonAlnum s) = startsWithAlnum s.
Proof.
  destruct s as [|c s]; [done|]. unfold replaceNonAlnum. simpl.
  by destruct (Str.isAlnum c) eqn:E.
Qed.

Lemma alnumRuns_replace s : alnumRuns (replaceNonAlnum s) = alnumRuns s.
Proof.
  induction s as [|c s IH]; [done|].
  change (replaceNonAlnum (String c s))
    with (String (if Str.isAlnum c then c else hyphen) (replaceNonAlnum s)).
  rewrite !alnumRuns_cons, startsWithAlnum_replace, IH.
  by destruct (Str.isAlnum c) eqn:E; [rewrite E|].
Qed.

Lemma generateId_join s : generateId s = Str.join "-" (slugWords s).
Proof.
  unfold generateId, stripEdgeHyphens, slugWords.
  rewrite stripEdgeHyphens_comm.
  rewrite stripTrailing_collapse by apply slugChars_after_replace.
  rewrite alnumRuns_replace.
  destruct (startsWithHyphen _ && nonEmpty _).
  - simpl. by change (Ascii.eqb hyphen hyphen) with true.
  - simpl. apply stripLeadingHyphen_fix, startsWithHyphen_join_runs.
Qed.

Lemma string_app_cons c (s t : string) : String c s ++ t = String c (s ++ t).
Proof. reflexivity. Qed.

Lemma string_app_empty_l (t : string) : EmptyString ++ t = t.
Proof. reflexivity. Qed.

Lemma string_app_empty_r (s : string) : s ++ EmptyString = s.
Proof.
  induction s as [|c s IH]; [done|]. by rewrite string_app_cons, IH.
Qed.

Lemma alnumRuns_word_then w rest :
  w ≠ EmptyString → allAlnum w = true → startsWithAlnum rest = false →
  alnumRuns (w ++ rest) = w :: alnumRuns rest.
Proof.
  intros Hne Hw Hrest. induction w as [|c w IH]; [done|].
  simpl in Hw. apply andb_true_iff in Hw as [Hc Hw].
  rewrite string_app_cons, alnumRuns_cons, Hc.
  destruct w as [|d w].
  - rewrite string_app_empty_l. by rewrite Hrest.
  - rewrite IH by done. simpl in Hw. apply andb_true_iff in Hw as [Hd _].
    rewrite string_app_cons. cbn [startsWithAlnum]. by rewrite Hd.
Qed.

Lemma alnumRuns_good s :
  Forall (λ w, w ≠ EmptyString ∧ allAlnum w = true) (alnumRuns s).
Proof.
  induction s as [|c s IH]; [constructor|]. rewrite alnumRuns_cons.
  destruct (Str.isAlnum c) eqn:E; [|done].
  destruct (startsWithAlnum s).
  - destruct (alnumRuns s) as [|w ws]; [repeat constructor; simpl; by rewrite ?E|].
    apply Forall_cons in IH as [[_ Hw] Hws]. constructor; [|done].
    split; [done|]. simpl. by rewrite E, Hw.
  - constructor; [|done]. split; [done|]. simpl. by rewrite E.
Qed.

Lemma alnumRuns_join ws :
  Forall (λ w, w ≠ EmptyString ∧ allAlnum w = true) ws →
  alnumRuns (Str.join "-" ws) = ws.
Proof.
  induction 1 as [|w ws [Hne Hw] _ IH]; [done|].
  destruct ws as [|w' ws].
  - simpl. rewrite <- (string_app_empty_r w) at 1.
    by rewrite alnumRuns_word_then.
  - change (Str.join "-" (w :: w' :: ws))
      with (w ++ String hyphen (Str.join "-" (w' :: ws))).
    rewrite alnumRuns_word_then by done.
    rewrite alnumRuns_cons.
    change (Str.isAlnum hyphen) with false. cbv iota. by rewrite IH.
Qed.

Lemma slugWords_generateId s : alnumRuns (generateId s) = slugWords s.
Proof. rewrite generateId_join. apply alnumRuns_join, alnumRuns_good. Qed.

Lemma noneAlnum_runs p b : noneAlnum p = true → alnumRuns (p ++ b) = alnumRuns b.
Proof.
  induction p as [|c p IH]; [done|]. cbn [noneAlnum].
  intros [Hc Hp]%andb_true_iff. apply negb_true_iff in Hc.
  rewrite string_app_cons, alnumRuns_cons, Hc. by apply IH.
Qed.

Lemma noneAlnum_start p b :
  noneAlnum p = true → p ≠ EmptyString → startsWithAlnum (p ++ b) = false.
Proof.
  destruct p as [|c p]; [done|]. cbn [noneAlnum].
  intros [Hc _]%andb_true_iff _. rewrite string_app_cons.
  by apply negb_true_iff in Hc.
Qed.

Lemma alnumRuns_separator a p p' b :
  noneAlnum p = true → p ≠ EmptyString →
  noneAlnum p' = true → p' ≠ EmptyString →
  alnumRuns (a ++ p ++ b) = alnumRuns (a ++ p' ++ b).
Proof.
  intros Hp Hne Hp' Hne'. induction a as [|c a IH].
  - rewrite !string_app_empty_l. by rewrite !noneAlnum_runs.
  - rewrite !string_app_cons, !alnumRuns_cons, IH.
    destruct a as [|d a]; [|done].
    rewrite !string_app_empty_l. by rewrite !noneAlnum_start.
Qed.

Lemma alnumRuns_trailing s q : noneAlnum q = true → alnumRuns (s ++ q) = alnumRuns s.
Proof.
  intros Hq. induction s as [|c s IH].
  - rewrite string_app_empty_l. rewrite <- (string_app_empty_r q).
    by rewrite noneAlnum_runs.
  - rewrite !string_app_cons, !alnumRuns_cons, IH.
    destruct s as [|d s]; [|done].
    rewrite string_app_empty_l. destruct q as [|e q]; [done|].
    cbn [noneAlnum] in Hq. apply andb_true_iff in Hq as [He _].
    apply negb_true_iff in He. cbn [startsWithAlnum]. by rewrite He.
Qed.

Lemma toLowerCase_nonempty p : p ≠ EmptyString → Str.toLowerCase p ≠ EmptyString.
Proof. by destruct p. Qed.

End SlugFacts.

(** C8. [generateId] is idempotent; two inputs that differ only in letter
    case or in which non-alphanumeric characters stand between the letters
    and digits get the same id; the result is always a slug (lower-case
    letters and digits, single hyphens, none at the ends); and
    ["ABS Census 2021!"] becomes ["abs-census-2021"].  The id is the text in
    lower case, cut into its runs of letters and digits, with the runs
    joined by single hyphens: two texts get the same id exactly when they
    have the same runs; a run of punctuation counts as one hyphen, and
    punctuation at the ends is dropped. *)
Theorem generateId_idempotent_and_collapsing :
  (∀ s, generateId (generateId s) = generateId s)
  ∧ (∀ s t, sameUpToCasePunct s t = true → generateId s = generateId t)
  ∧ (∀ s, isSlug (generateId s) = true)
  ∧ generateId "ABS Census 2021!" = "abs-census-2021"
  ∧ (∀ s, generateId s = Str.join "-" (slugWords s))
  ∧ (∀ s t, generateId s = generateId t ↔ slugWords s = slugWords t)
  ∧ (∀ s, generateId (Str.toLowerCase s) = generateId s)
  ∧ (∀ a p b, isPunctuation p = true → p ≠ EmptyString →
       generateId (a ++ p ++ b) = generateId (a ++ "-" ++ b))
  ∧ (∀ p s q, isPunctuation p = true → isPunctuation q = true →
       generateId (p ++ s ++ q) = generateId s).
Proof.
  split; [|split; [|split; [|split; [|split; [|split; [|split; [|split]]]]]]].
  - intros s. apply isSlug_generateId_fix, isSlug_generateId.
  - apply sameUpToCasePunct_generateId.
  - apply isSlug_generateId.
  - reflexivity.
  - apply generateId_join.
  - intros s t. split.
    + intros E. by rewrite <- !slugWords_generateId, E.
    + intros E. by rewrite !generateId_join, E.
  - intros s. apply sameUpToCasePunct_generateId.
    induction s as [|c s IH]; [done|].
    change (Str.toLowerCase (String c s))
      with (String (Str.lowerChar c) (Str.toLowerCase s)).
    cbn [sameUpToCasePunct]. rewrite IH, andb_true_r.
    unfold sameCharUpToCasePunct.
    by destruct c as [[] [] [] [] [] [] [] []].
  - intros a p b Hp Hne. rewrite !generateId_join. f_equal.
    unfold slugWords. rewrite !toLowerCase_app.
    apply alnumRuns_separator; try done.
    by apply toLowerCase_nonempty.
  - intros p s q Hp Hq. rewrite !generateId_join. f_equal.
    unfold slugWords. rewrite !toLowerCase_app.
    rewrite noneAlnum_runs by done. by apply alnumRuns_trailing.
Qed.

Lemma generateId_idempotent_and_collapsing_witness :
  (sameUpToCasePunct "ABS Census 2021!" "abs-census-2021-" = true
   ∧ generateId "ABS Census 2021!" = generateId "abs-census-2021-")
  ∧ (slugWords "a  b" = slugWords "a-b" ∧ generateId "a  b" = generateId "a-b")
  ∧ generateId ("ABS" ++ ", " ++ "Census") = generateId ("ABS" ++ "-" ++ "Census")
  ∧ generateId ("  " ++ "abs-census-2021" ++ "!") = generateId "abs-census-2021".
Proof.
  split; [|split; [|split]].
  - split; [reflexivity|].
    apply (proj1 (proj2 generateId_idempotent_and_collapsing)). reflexivity.
  - split; [reflexivity|].
    apply (proj2 (proj1 (proj2 (proj2 (proj2 (proj2 (proj2
             generateId_idempotent_and_collapsing))))) "a  b" "a-b")).
    reflexivity.
  - apply (proj1 (proj2 (proj2 (proj2 (proj2 (proj2 (proj2 (proj2
             generateId_idempotent_and_collapsing))))))) "ABS" ", " "Census");
      [reflexivity|discriminate].
  - apply (proj2 (proj2 (proj2 (proj2 (proj2 (proj2 (proj2 (proj2
             generateId_idempotent_and_collapsing))))))) "  " "abs-census-2021" "!");
      reflexivity.
Defined.

(** ** Sections of a page *)

Lemma substring0_length n s : String.length (Str.substring0 n s) = min n (String.length s).
Proof.
  revert s. induction n as [|n IH]; intros [|c s]; simpl; try done.
  by rewrite IH.
Qed.

Lemma addHeading_cases url sections h :
  (hasText h = false ∧ addHeading url sections h = sections)
  ∨ (hasText h = true
     ∧ ∃ s, addHeading url sections h = (sections ++ [s])%list ∧ sectionOfHeading url h s).
Proof.
  unfold addHeading, hasText.
  destruct (String.length (Str.trim (hd_text h)) =? 0)%nat eqn:E; [by left|].
  right. split; [done|]. eexists. split; [done|].
  repeat split; simpl; try done.
  intros Hnil. by rewrite Hnil in E.
Qed.

Lemma fold_addHeading_sections url hs acc s :
  s ∈ fold_left (addHeading url) hs acc →
  s ∈ acc ∨ ∃ h, h ∈ hs ∧ sectionOfHeading url h s.
Proof.
  revert acc. induction hs as [|h hs IH]; cbn [fold_left]; intros acc Hs;
    [by left|].
  apply IH in Hs as [Hs|(h' & Hin & Hof)].
  - destruct (addHeading_cases url acc h) as [[_ E]|[_ (s' & E & Hof)]];
      rewrite E in Hs; [by left|].
    apply elem_of_app in Hs as [Hs|Hs]; [by left|].
    apply list_elem_of_singleton in Hs as ->.
    right. exists h. split; [left|done].
  - right. exists h'. split; [by right|done].
Qed.

Lemma parsePageStructure_sections pg url s :
  s ∈ pst_sections (parsePageStructure pg url) →
  ∃ h, h ∈ pg_headings pg ∧ sectionOfHeading url h s.
Proof.
  intros Hs. apply fold_addHeading_sections in Hs as [Hs|Hs]; [|done].
  by apply elem_of_nil in Hs.
Qed.

Lemma fold_addHeading_ids url hs acc :
  List.map ps_id (fold_left (addHeading url) hs acc)
  = (List.map ps_id acc
     ++ List.map (λ h, generateSectionId (Str.trim (hd_text h)))
          (List.filter hasText hs))%list.
Proof.
  revert acc. induction hs as [|h hs IH]; cbn [fold_left List.filter]; intros acc.
  - by rewrite app_nil_r.
  - rewrite IH.
    destruct (addHeading_cases url acc h) as [[E ->]|[E (s & -> & Hof)]];
      rewrite E; [done|].
    destruct Hof as (Ht & _ & Hid & _).
    rewrite List.map_app. simpl. rewrite <- app_assoc. simpl.
    by rewrite Hid, Ht.
Qed.

(** C7. The content of a section never has more than 1000 characters: it is
    the trimmed text gathered after the heading, cut at 1000, whatever the
    amount of text; and this holds for every section of a parsed page. *)
Theorem section_content_at_most_1000 :
  (∀ h, String.length (extractSectionContent h)
        = min 1000
            (String.length
               (Str.trim (collectContent (hd_level h) EmptyString (hd_next h)))))
  ∧ (∀ h, (String.length (extractSectionContent h) ≤ 1000)%nat)
  ∧ (∀ pg url s, s ∈ pst_sections (parsePageStructure pg url) →
       (String.length (ps_content s) ≤ 1000)%nat).
Proof.
  assert (Hlen : ∀ h, (String.length (extractSectionContent h) ≤ 1000)%nat).
  { intros h. unfold extractSectionContent. rewrite substring0_length. lia. }
  split; [|split; [done|]].
  - intros h. unfold extractSectionContent. apply substring0_length.
  - intros pg url s (h & _ & Hof)%parsePageStructure_sections.
    destruct Hof as (_ & _ & _ & -> & _). apply Hlen.
Qed.

Lemma section_content_at_most_1000_witness :
  ∃ s, s ∈ pst_sections (parsePageStructure Samples.twoHeadings "https://www.dewr.gov.au/")
       ∧ ps_content s = "Annual figures"
       ∧ (String.length (ps_content s) ≤ 1000)%nat.
Proof.
  eexists. split; [|split].
  - vm_compute. apply list_elem_of_here.
  - reflexivity.
  - apply (proj2 (proj2 section_content_at_most_1000)
             Samples.twoHeadings "https://www.dewr.gov.au/").
    vm_compute. apply list_elem_of_here.
Defined.

(** C10. The ids of the sections of a parsed page are, heading by heading
    (those with text), the first 50 characters of the slug of the heading
    text; the anchor of the section URL is that id; hence two headings of a
    page whose slugs agree on their first 50 characters get the same id and
    the same URL. *)
Theorem section_ids_are_truncated_slugs pg url :
  List.map ps_id (pst_sections (parsePageStructure pg url))
  = List.map (λ h, Str.substring0 50 (generateId (Str.trim (hd_text h))))
      (List.filter hasText (pg_headings pg))
  ∧ (∀ s, s ∈ pst_sections (parsePageStructure pg url) →
       ps_id s = Str.substring0 50 (generateId (ps_title s))
       ∧ (String.length (ps_id s) ≤ 50)%nat
       ∧ ps_url s = url ++ "#" ++ ps_id s)
  ∧ (∀ s1 s2,
       s1 ∈ pst_sections (parsePageStructure pg url) →
       s2 ∈ pst_sections (parsePageStructure pg url) →
       Str.substring0 50 (generateId (ps_title s1))
       = Str.substring0 50 (generateId (ps_title s2)) →
       ps_id s1 = ps_id s2 ∧ ps_url s1 = ps_url s2).
Proof.
  assert (Hone : ∀ s, s ∈ pst_sections (parsePageStructure pg url) →
            ps_id s = Str.substring0 50 (generateId (ps_title s))
            ∧ (String.length (ps_id s) ≤ 50)%nat
            ∧ ps_url s = url ++ "#" ++ ps_id s).
  { intros s (h & _ & Hof)%parsePageStructure_sections.
    destruct Hof as (_ & _ & Hid & _ & _ & Hurl).
    split; [done|]. split; [|done].
    rewrite Hid. unfold generateSectionId. rewrite substring0_length. lia. }
  split; [|split; [done|]].
  - unfold parsePageStructure. simpl. by rewrite fold_addHeading_ids.
  - intros s1 s2 H1 H2 Heq.
    destruct (Hone s1 H1) as (Hid1 & _ & Hu1).
    destruct (Hone s2 H2) as (Hid2 & _ & Hu2).
    assert (ps_id s1 = ps_id s2) as Hid by congruence.
    split; [done|]. by rewrite Hu1, Hu2, Hid.
Qed.

Lemma section_ids_are_truncated_slugs_witness :
  ∃ s1 s2,
    s1 ∈ pst_sections (parsePageStructure Samples.twoHeadings "https://www.dewr.gov.au/")
    ∧ s2 ∈ pst_sections (parsePageStructure Samples.twoHeadings "https://www.dewr.gov.au/")
    ∧ ps_title s1 ≠ ps_title s2
    ∧ ps_id s1 = "employment-and-workplace-relations-statistics-for-"
    ∧ ps_id s1 = ps_id s2 ∧ ps_url s1 = ps_url s2.
Proof.
  pose proof (section_ids_are_truncated_slugs Samples.twoHeadings
                "https://www.dewr.gov.au/") as (_ & _ & Hsame).
  eexists _, _. split; [|split; [|split; [|split]]].
  - vm_compute. apply list_elem_of_here.
  - vm_compute. apply list_elem_of_further, list_elem_of_here.
  - apply String.eqb_neq. vm_compute. reflexivity.
  - vm_compute. reflexivity.
  - apply Hsame.
    + vm_compute. apply list_elem_of_here.
    + vm_compute. apply list_elem_of_further, list_elem_of_here.
    + vm_compute. reflexivity.
Defined.

(** ** The composite relevance score *)

(** Goals of linear arithmetic over [Qc] are moved to the underlying [Q]. *)
Ltac qc_push :=
  unfold Qclt, Qcle in *;
  cbn [this Qcplus Qcminus Qcopp Qcmult Q2Qc num] in *;
  rewrite ?Qred_correct in *; unfold inject_Z in *.

Ltac qc_linear := qc_push; lra.

Lemma Qc_eq_of_Qeq (x y : Qc) : (this x == this y)%Q → x = y.
Proof. apply Qc_is_canon. Qed.

Ltac qc_equal := apply Qc_eq_of_Qeq; qc_linear.

Lemma Math_max_0_nonneg (v : Qc) : (num 0 ≤ v)%Qc → Math_max (num 0) v = v.
Proof. intros H. unfold Math_max. by destruct (decide (num 0 ≤ v)%Qc). Qed.

Lemma calculateRelevanceScore_formula result queryAnalysis :
  calculateRelevanceScore result queryAnalysis
  = Math_max (num 0)
      (num 100 + strategyBonus (hit_searchType result)
       - hit_score result * num 100
       + contextBonus result
       + specificSectionBonus queryAnalysis result)%Qc.
Proof.
  unfold calculateRelevanceScore, contextBonus, specificSectionBonus.
  f_equal.
  destruct (hit_contextScore result) as [c|]; simpl;
    [destruct (bool_decide_reflect (c = num 0)) as [->|_]|];
    destruct (qa_isSpecific queryAnalysis && isSection (hit_item result));
    qc_equal.
Qed.

Lemma sortDesc_pair {A : Type} (key : A → Qc) (x y : A) :
  (key y < key x)%Qc →
  sortDesc key [x; y] = [x; y] ∧ sortDesc key [y; x] = [x; y].
Proof.
  intros H. unfold sortDesc. simpl.
  destruct (decide (key x < key y)%Qc) as [H'|_];
    [exfalso; qc_linear|].
  by destruct (decide (key y < key x)%Qc).
Qed.

(** C1. The composite score is
    [max(0, 100 + strategyBonus - rawScore*100 + contextScore + sectionBonus)]
    with the bonuses 50, 40, 20, 10, the context score counted when the hit
    has one, and 20 more for a section under a specific query.  For two hits
    of the same record with the same raw score (in [0, 1]) and context score,
    the hit of the strategy with priority has the strictly greater score
    and is sorted first, in the order semantic, exact, fuzzy, partial. *)
Theorem relevance_score_formula_and_strategy_order :
  (∀ result queryAnalysis,
     calculateRelevanceScore result queryAnalysis
     = Math_max (num 0)
         (num 100 + strategyBonus (hit_searchType result)
          - hit_score result * num 100
          + contextBonus result
          + specificSectionBonus queryAnalysis result)%Qc)
  ∧ (strategyBonus semantic = num 50 ∧ strategyBonus exact = num 40
     ∧ strategyBonus fuzzy = num 20 ∧ strategyBonus partial = num 10)
  ∧ (∀ queryAnalysis result,
       specificSectionBonus queryAnalysis result
       = if qa_isSpecific queryAnalysis
            && bool_decide (item_category (hit_item result) = Some "section")
         then num 20 else num 0)
  ∧ (∀ queryAnalysis h1 h2,
       sameButStrategy h1 h2 → wellScored h1 →
       outranks (hit_searchType h1) (hit_searchType h2) = true →
       (calculateRelevanceScore h2 queryAnalysis
        < calculateRelevanceScore h1 queryAnalysis)%Qc
       ∧ sortDesc rk_relevanceScore [rank queryAnalysis h2; rank queryAnalysis h1]
         = [rank queryAnalysis h1; rank queryAnalysis h2]
       ∧ sortDesc rk_relevanceScore [rank queryAnalysis h1; rank queryAnalysis h2]
         = [rank queryAnalysis h1; rank queryAnalysis h2]).
Proof.
  split; [apply calculateRelevanceScore_formula|].
  split; [done|]. split; [done|].
  intros qa h1 h2 (Hitem & Hscore & Hctx) (Hlo & Hhi & Hc) Hout.
  assert (Hlt : (calculateRelevanceScore h2 qa < calculateRelevanceScore h1 qa)%Qc).
  { rewrite !calculateRelevanceScore_formula.
    unfold contextBonus, specificSectionBonus.
    rewrite <- Hitem, <- Hscore, <- Hctx.
    set (sb := if qa_isSpecific qa && isSection (hit_item h1)
               then num 20 else num 0).
    assert (Hsb : (num 0 ≤ sb)%Qc) by (subst sb; by case_match).
    set (cb := default (num 0) (hit_contextScore h1)).
    assert (Hcb : (num 0 ≤ cb)%Qc).
    { subst cb. destruct (hit_contextScore h1) as [c|]; simpl; [by apply Hc|done]. }
    clearbody sb cb.
    assert (Hb2 : (num 10 ≤ strategyBonus (hit_searchType h2))%Qc)
      by (by destruct (hit_searchType h2)).
    assert (Hb : (strategyBonus (hit_searchType h2) + num 10
                  ≤ strategyBonus (hit_searchType h1))%Qc)
      by (by destruct (hit_searchType h1), (hit_searchType h2)).
    set (b1 := strategyBonus (hit_searchType h1)) in *.
    set (b2 := strategyBonus (hit_searchType h2)) in *.
    clearbody b1 b2.
    rewrite !Math_max_0_nonneg by qc_linear. qc_linear. }
  split; [done|].
  destruct (sortDesc_pair rk_relevanceScore (rank qa h1) (rank qa h2) Hlt).
  by split.
Qed.

Lemma relevance_score_formula_and_strategy_order_witness :
  (calculateRelevanceScore (ScoreSamples.hitOf fuzzy ScoreSamples.quarter)
     (analyzeQuery "local government")
   < calculateRelevanceScore (ScoreSamples.hitOf exact ScoreSamples.quarter)
       (analyzeQuery "local government"))%Qc.
Proof.
  apply (proj2 (proj2 (proj2 relevance_score_formula_and_strategy_order))
           (analyzeQuery "local government")
           (ScoreSamples.hitOf exact ScoreSamples.quarter)
           (ScoreSamples.hitOf fuzzy ScoreSamples.quarter)).
  - repeat split.
  - split; [|split]; [by vm_compute|by vm_compute|intros c Hc; discriminate Hc].
  - reflexivity.
Defined.

(** ** Merging the hits of the strategies *)

Lemma mapGet_mapSet_eq k v m : mapGet k (mapSet k v m) = Some v.
Proof.
  induction m as [|[k' v'] m IH]; simpl.
  - by rewrite String.eqb_refl.
  - destruct (String.eqb k k') eqn:E; simpl; [by rewrite String.eqb_refl|].
    by rewrite E.
Qed.

Lemma mapGet_mapSet_ne k k' v m : k ≠ k' → mapGet k' (mapSet k v m) = mapGet k' m.
Proof.
  intros Hne. induction m as [|[k0 v0] m IH]; simpl.
  - destruct (String.eqb_spec k' k); [congruence|done].
  - destruct (String.eqb_spec k k0) as [->|Hk]; simpl.
    + destruct (String.eqb_spec k' k0); [congruence|done].
    + by rewrite IH.
Qed.

Lemma mapSet_keys k v m :
  List.map fst (mapSet k v m)
  = match mapGet k m with
    | Some _ => List.map fst m
    | None => (List.map fst m ++ [k])%list
    end.
Proof.
  induction m as [|[k0 v0] m IH]; simpl; [done|].
  destruct (String.eqb_spec k k0) as [->|Hk]; simpl; [done|].
  rewrite IH. by destruct (mapGet k m).
Qed.

Lemma mapGet_None_keys k m : mapGet k m = None → k ∉ List.map fst m.
Proof.
  induction m as [|[k0 v0] m IH]; simpl; [intros _; apply not_elem_of_nil|].
  destruct (String.eqb_spec k k0) as [->|Hk]; [done|].
  intros H. apply not_elem_of_cons. split; [done|by apply IH].
Qed.

Lemma mergeHit_same queryAnalysis m result :
  mapGet (resultKey result) (mergeHit queryAnalysis m result)
  = mergeOne queryAnalysis (mapGet (resultKey result) m) result.
Proof.
  unfold mergeHit, mergeOne.
  destruct (mapGet (resultKey result) m) as [ex|] eqn:E.
  - destruct (overrides ex result); [apply mapGet_mapSet_eq|done].
  - apply mapGet_mapSet_eq.
Qed.

Lemma mergeHit_other queryAnalysis m result k :
  resultKey result ≠ k →
  mapGet k (mergeHit queryAnalysis m result) = mapGet k m.
Proof.
  intros Hne. unfold mergeHit.
  destruct (mapGet (resultKey result) m) as [ex|];
    [destruct (overrides ex result)|]; try done;
    by apply mapGet_mapSet_ne.
Qed.

Lemma fold_mergeHit_key queryAnalysis k results m :
  mapGet k (fold_left (mergeHit queryAnalysis) results m)
  = fold_left (mergeOne queryAnalysis) (List.filter (hasKey k) results)
      (mapGet k m).
Proof.
  revert m. induction results as [|r results IH]; intros m;
    cbn [fold_left List.filter]; [done|].
  rewrite IH. unfold hasKey at 2.
  destruct (String.eqb_spec (resultKey r) k) as [<-|Hne]; cbn [fold_left].
  - by rewrite mergeHit_same.
  - by rewrite mergeHit_other.
Qed.

Lemma mapSet_wellFormed k v m :
  resultKey (rk_hit v) = k → mapWellFormed m → mapWellFormed (mapSet k v m).
Proof.
  intros Hk [Hnd Hall]. split.
  - rewrite mapSet_keys. destruct (mapGet k m) eqn:E; [done|].
    apply NoDup_app. split; [done|]. split; [|apply NoDup_singleton].
    intros x Hx ->%list_elem_of_singleton.
    by apply mapGet_None_keys in E.
  - clear Hnd. induction m as [|[k0 v0] m IH]; simpl.
    + by repeat constructor.
    + apply Forall_cons in Hall as [H0 Hall].
      destruct (String.eqb_spec k k0) as [->|Hne]; constructor; auto.
Qed.

Lemma mergeHits_wellFormed queryAnalysis results :
  mapWellFormed (mergeHits queryAnalysis results).
Proof.
  unfold mergeHits.
  assert (H0 : mapWellFormed []) by (split; constructor).
  revert H0. generalize ([] : ResultMap).
  induction results as [|r results IH]; intros m Hm; cbn [fold_left]; [done|].
  apply IH. unfold mergeHit.
  destruct (mapGet (resultKey r) m) as [ex|];
    [destruct (overrides ex r)|]; try done;
    by apply mapSet_wellFormed.
Qed.

Lemma wellFormed_entries_of_key k v m :
  mapWellFormed m → mapGet k m = Some v →
  List.filter (λ r, String.eqb (resultKey (rk_hit r)) k) (mapValues m) = [v].
Proof.
  unfold mapValues. intros [Hnd Hall] Hget.
  induction m as [|[k0 v0] m IH]; simpl in *; [done|].
  apply NoDup_cons in Hnd as [Hk0 Hnd].
  apply Forall_cons in Hall as [H0 Hall]. simpl in H0. rewrite H0.
  destruct (String.eqb_spec k k0) as [->|Hne].
  - injection Hget as ->. rewrite String.eqb_refl. f_equal.
    clear IH. induction m as [|[k1 v1] m IH]; simpl; [done|].
    apply Forall_cons in Hall as [H1 Hall]. simpl in H1. rewrite H1.
    apply not_elem_of_cons in Hk0 as [Hne Hk0]. simpl in Hne.
    apply NoDup_cons in Hnd as [_ Hnd].
    destruct (String.eqb_spec k1 k0); [congruence|]. by apply IH.
  - destruct (String.eqb_spec k0 k); [congruence|]. by apply IH.
Qed.

Lemma overrides_spec existingResult result :
  overrides existingResult result = true
  ↔ hit_searchType result = semantic
    ∨ ((hit_score result < hit_score (rk_hit existingResult))%Qc
       ∧ hit_searchType result ≠ partial).
Proof.
  unfold overrides.
  rewrite orb_true_iff, andb_true_iff, negb_true_iff,
    !bool_decide_eq_true, bool_decide_eq_false. done.
Qed.

Lemma fold_mergeOne_partials queryAnalysis ps stored :
  Forall (λ p, hit_searchType p = partial) ps →
  fold_left (mergeOne queryAnalysis) ps (Some stored) = Some stored.
Proof.
  induction 1 as [|p ps Hp _ IH]; cbn [fold_left]; [done|].
  unfold mergeOne at 2. unfold overrides. rewrite Hp. simpl.
  rewrite andb_false_r. apply IH.
Qed.

(** C2, as amended.  Hits are merged under the key [id || title]; an
    incoming hit replaces the stored one exactly when it is semantic, or
    when its raw score is strictly lower and it is not partial, so a partial
    hit never replaces a stored hit.  When the hits for a record are an exact
    one, then a fuzzy one, then only partial ones, the result holds exactly
    one entry for the record: the fuzzy hit if its raw score is strictly
    lower than that of the exact hit, the exact hit otherwise. *)
Theorem merge_keeps_better_of_exact_and_fuzzy :
  (∀ queryAnalysis m result existingResult,
     mapGet (resultKey result) m = Some existingResult →
     (overrides existingResult result = true
      ↔ hit_searchType result = semantic
        ∨ ((hit_score result < hit_score (rk_hit existingResult))%Qc
           ∧ hit_searchType result ≠ partial))
     ∧ mergeHit queryAnalysis m result
       = (if overrides existingResult result
          then mapSet (resultKey result) (rank queryAnalysis result) m else m)
     ∧ (hit_searchType result = partial → mergeHit queryAnalysis m result = m))
  ∧ (∀ queryAnalysis results k e f ps,
       List.filter (hasKey k) results = e :: f :: ps →
       hit_searchType e = exact → hit_searchType f = fuzzy →
       Forall (λ p, hit_searchType p = partial) ps →
       List.filter (λ r, String.eqb (resultKey (rk_hit r)) k)
         (mapValues (mergeHits queryAnalysis results))
       = [rank queryAnalysis
            (if bool_decide (hit_score f < hit_score e)%Qc then f else e)]).
Proof.
  split.
  - intros qa m result ex Hget. split; [apply overrides_spec|].
    unfold mergeHit. rewrite Hget. split; [done|].
    intros Hp. unfold overrides. rewrite Hp. simpl. by rewrite andb_false_r.
  - intros qa results k e f ps Hf He Hfz Hps.
    apply wellFormed_entries_of_key; [apply mergeHits_wellFormed|].
    unfold mergeHits. rewrite fold_mergeHit_key, Hf. cbn [fold_left mapGet].
    unfold mergeOne at 2. unfold mergeOne at 2.
    assert (Hov : overrides (rank qa e) f = bool_decide (hit_score f < hit_score e)%Qc).
    { unfold overrides. rewrite Hfz. simpl. by rewrite andb_true_r. }
    rewrite Hov.
    destruct (bool_decide (hit_score f < hit_score e)%Qc);
      by apply fold_mergeOne_partials.
Qed.

Lemma merge_keeps_better_of_exact_and_fuzzy_witness :
  List.filter (λ r, String.eqb (resultKey (rk_hit r)) "abs-codelist-lga-2021")
    (mapValues
       (mergeHits MergeSamples.query
          [MergeSamples.exactHit; ScoreSamples.hitOf fuzzy MergeSamples.half;
           MergeSamples.partialHit]))
  = [rank MergeSamples.query MergeSamples.exactHit].
Proof.
  apply (proj2 merge_keeps_better_of_exact_and_fuzzy MergeSamples.query
           [MergeSamples.exactHit; ScoreSamples.hitOf fuzzy MergeSamples.half;
            MergeSamples.partialHit]
           "abs-codelist-lga-2021"
           MergeSamples.exactHit (ScoreSamples.hitOf fuzzy MergeSamples.half)
           [MergeSamples.partialHit]).
  - reflexivity.
  - reflexivity.
  - reflexivity.
  - repeat constructor.
Defined.

(** C2, the counterexample: a record is hit by the exact strategy with raw
    score 1/2 and by the fuzzy strategy with raw score 1/5; the merged
    result holds one entry for it, and that entry is tagged [fuzzy]. *)
Lemma exact_hit_replaced_by_better_fuzzy_hit :
  resultKey MergeSamples.exactHit = resultKey MergeSamples.fuzzyHit
  ∧ hit_searchType MergeSamples.exactHit = exact
  ∧ hit_searchType MergeSamples.fuzzyHit = fuzzy
  ∧ List.map (λ r, hit_searchType (rk_hit r))
      (mapValues
         (mergeHits MergeSamples.query
            [MergeSamples.exactHit; MergeSamples.fuzzyHit]))
    = [fuzzy].
Proof. repeat split. Qed.

(** ** The depth bound of the crawler *)

Section CrawlerFacts.

Variable fetch : World.
Variable resolve : string → string → option string.
Variable hostname : string → option string.
Variable now : N.

Local Abbreviation crawl := (crawlWithin fetch resolve hostname now).
Local Abbreviation deepCrawl := (deepCrawlWebsite fetch resolve hostname now).
Local Abbreviation follow := (linksToFollow resolve hostname).

Lemma uniqueFrom_elem seen links l : l ∈ uniqueFrom seen links → l ∈ links.
Proof.
  revert seen. induction links as [|x links IH]; simpl; intros seen; [done|].
  case_bool_decide.
  - intros Hl. right. by eapply IH.
  - intros [->|Hl]%elem_of_cons; [left|right; by eapply IH].
Qed.

Lemma extractInternalLinks_linked pg baseUrl crawled l :
  fetch baseUrl = Some pg →
  l ∈ extractInternalLinks resolve hostname pg baseUrl crawled →
  linked fetch resolve baseUrl l ∧ l ∉ crawled.
Proof.
  intros Hpg. unfold extractInternalLinks.
  destruct (hostname baseUrl) as [baseHost|]; [|by intros ?%elem_of_nil].
  intros (href & Hin & Hl)%uniqueFrom_elem%list_elem_of_omap.
  destruct (negb (Str.truthy (Some href))); [done|].
  destruct (resolve href baseUrl) as [absoluteUrl|] eqn:Hres; simpl in Hl; [|done].
  destruct (hostname absoluteUrl) as [linkHost|]; simpl in Hl; [|done].
  destruct (String.eqb linkHost baseHost
            && negb (bool_decide (absoluteUrl ∈ crawled))) eqn:E; [|done].
  injection Hl as <-.
  apply andb_true_iff in E as [_ E]. apply negb_true_iff in E.
  apply bool_decide_eq_false in E.
  split; [|done]. by exists pg, href.
Qed.

Lemma linksToFollow_linked pg baseUrl options crawled l :
  fetch baseUrl = Some pg →
  l ∈ follow pg baseUrl options crawled →
  linked fetch resolve baseUrl l ∧ l ∉ crawled.
Proof.
  intros Hpg Hl. unfold linksToFollow, filterRelevantLinks in Hl.
  apply (extractInternalLinks_linked pg baseUrl crawled l Hpg).
  apply subseteq_take in Hl.
  apply list_elem_of_In, filter_In in Hl as [Hl _]. by apply list_elem_of_In.
Qed.

(** The recursive equation of the source. *)
Lemma deepCrawlWebsite_unfold baseUrl options currentDepth ix :
  deepCrawl baseUrl options currentDepth ix
  = if (maxDepthOf options <=? currentDepth)%nat
       || bool_decide (baseUrl ∈ crawledUrls ix)
    then ix
    else
      let ix1 := set_crawledUrls ({[ baseUrl ]} ∪ crawledUrls ix) ix in
      match request fetch baseUrl ix1 with
      | (None, ix2) => ix2
      | (Some pg, ix2) =>
          let ix3 := storePage now baseUrl options pg ix2 in
          if (currentDepth <? maxDepthOf options - 1)%nat
          then fold_left
                 (λ acc link, deepCrawl link options (currentDepth + 1) acc)
                 (follow pg baseUrl options (crawledUrls ix3)) ix3
          else ix3
      end.
Proof.
  unfold deepCrawlWebsite.
  destruct (maxDepthOf options <=? currentDepth)%nat eqn:E.
  - apply Nat.leb_le in E.
    replace (maxDepthOf options - currentDepth)%nat with 0%nat by lia. done.
  - apply Nat.leb_gt in E.
    replace (maxDepthOf options - currentDepth)%nat
      with (S (maxDepthOf options - (currentDepth + 1)))%nat by lia.
    cbn [crawlWithin]. apply Nat.leb_gt in E. by rewrite E.
Qed.

Lemma fold_crawl_documents options baseUrl currentDepth budget links :
  (∀ link ix, ∃ new,
     documents (crawl budget link options (currentDepth + 1) ix)
     = (documents ix ++ new)%list
     ∧ Forall (withinDepth fetch resolve options link (currentDepth + 1)) new) →
  Forall (linked fetch resolve baseUrl) links →
  ∀ ix, ∃ new,
    documents
      (fold_left (λ acc link, crawl budget link options (currentDepth + 1) acc)
         links ix)
    = (documents ix ++ new)%list
    ∧ Forall (withinDepth fetch resolve options baseUrl currentDepth) new.
Proof.
  intros Hstep. induction 1 as [|link links Hlink _ IH]; intros ix;
    cbn [fold_left].
  - exists []. by rewrite app_nil_r.
  - destruct (Hstep link ix) as (new1 & E1 & H1).
    destruct (IH (crawl budget link options (currentDepth + 1) ix))
      as (new2 & E2 & H2).
    exists (new1 ++ new2)%list. split; [by rewrite E2, E1, app_assoc|].
    apply Forall_app. split; [|done].
    eapply Forall_impl; [exact H1|].
    intros doc (url & k & Hurl & Hk & Hhops).
    exists url, (S k). split; [done|]. split; [lia|].
    by apply hops_step with link.
Qed.

Lemma crawlWithin_documents options budget :
  ∀ baseUrl currentDepth ix, ∃ new,
    documents (crawl budget baseUrl options currentDepth ix)
    = (documents ix ++ new)%list
    ∧ Forall (withinDepth fetch resolve options baseUrl currentDepth) new.
Proof.
  induction budget as [|budget IH]; intros baseUrl currentDepth ix;
    cbn [crawlWithin].
  - exists []. by rewrite app_nil_r.
  - destruct ((maxDepthOf options <=? currentDepth)%nat
              || bool_decide (baseUrl ∈ crawledUrls ix)) eqn:G.
    { exists []. by rewrite app_nil_r. }
    apply orb_false_iff in G as [G _]. apply Nat.leb_gt in G.
    unfold request. destruct (fetch baseUrl) as [pg|] eqn:Hpg.
    2: { exists []. by rewrite app_nil_r. }
    set (ix3 := storePage now baseUrl options pg _).
    assert (Hdoc : ∃ doc, documents ix3 = (documents ix ++ [doc])%list
                          ∧ item_url doc = Some baseUrl).
    { eexists. split; [reflexivity|done]. }
    destruct Hdoc as (doc & Hdocs & Hurl).
    assert (Hhere : withinDepth fetch resolve options baseUrl currentDepth doc).
    { exists baseUrl, 0%nat. split; [done|]. split; [lia|constructor]. }
    destruct (currentDepth <? maxDepthOf options - 1)%nat.
    + destruct (fold_crawl_documents options baseUrl currentDepth budget
                  (follow pg baseUrl options (crawledUrls ix3)))
        with (ix := ix3) as (new & E & Hnew).
      * intros link ix'. apply IH.
      * apply Forall_forall. intros l Hl.
        by apply (linksToFollow_linked pg baseUrl options (crawledUrls ix3) l Hpg).
      * exists (doc :: new). split.
        -- rewrite E, Hdocs, <- app_assoc. done.
        -- by constructor.
    + exists [doc]. split; [done|]. by constructor.
Qed.

End CrawlerFacts.

(** C5. A call of [deepCrawlWebsite] at a depth that has reached [maxDepth],
    or on a URL of the visited set, changes nothing.  Otherwise it follows
    the recursive equation of the source: links are followed only while
    [currentDepth < maxDepth - 1], one level deeper each.  Hence every
    document that a crawl from a seed adds is the page of a URL reached from
    the seed by fewer than [maxDepth] links. *)
Theorem crawl_depth_bound fetch resolve hostname now :
  (∀ baseUrl options currentDepth ix,
     (maxDepthOf options ≤ currentDepth)%nat ∨ baseUrl ∈ crawledUrls ix →
     deepCrawlWebsite fetch resolve hostname now baseUrl options currentDepth ix
     = ix)
  ∧ (∀ baseUrl options currentDepth ix pg,
       (currentDepth < maxDepthOf options)%nat → baseUrl ∉ crawledUrls ix →
       fetch baseUrl = Some pg →
       deepCrawlWebsite fetch resolve hostname now baseUrl options currentDepth ix
       = let ix3 :=
           storePage now baseUrl options pg
             (set_requests (requests ix ++ [baseUrl])
                (set_crawledUrls ({[ baseUrl ]} ∪ crawledUrls ix) ix)) in
         if (currentDepth <? maxDepthOf options - 1)%nat
         then fold_left
                (λ acc link,
                   deepCrawlWebsite fetch resolve hostname now link options
                     (currentDepth + 1) acc)
                (linksToFollow resolve hostname pg baseUrl options
                   (crawledUrls ix3)) ix3
         else ix3)
  ∧ (∀ seed options ix, ∃ new,
       documents (deepCrawlWebsite fetch resolve hostname now seed options 0 ix)
       = (documents ix ++ new)%list
       ∧ Forall
           (λ doc, ∃ url k, item_url doc = Some url
                            ∧ (k < maxDepthOf options)%nat
                            ∧ hops fetch resolve k seed url)
           new).
Proof.
  split; [|split].
  - intros baseUrl options currentDepth ix H.
    rewrite deepCrawlWebsite_unfold.
    destruct H as [H|H].
    + apply Nat.leb_le in H. by rewrite H.
    + rewrite (bool_decide_eq_true_2 _ H). by rewrite orb_true_r.
  - intros baseUrl options currentDepth ix pg Hd Hv Hpg.
    rewrite deepCrawlWebsite_unfold.
    apply Nat.leb_gt in Hd. rewrite Hd.
    rewrite (bool_decide_eq_false_2 _ Hv). cbn [orb].
    unfold request. by rewrite Hpg.
  - intros seed options ix.
    destruct (crawlWithin_documents fetch resolve hostname now options
                (maxDepthOf options - 0) seed 0 ix) as (new & E & H).
    exists new. split; [exact E|].
    eapply Forall_impl; [exact H|].
    intros doc (url & k & ? & ? & ?). exists url, k. auto with lia.
Qed.

(** ** Refresh *)

Section RefreshFacts.

Variable fetch : World.
Variable resolve : string → string → option string.
Variable hostname : string → option string.
Variable now : N.

Local Abbreviation crawl := (crawlWithin fetch resolve hostname now).









End RefreshFacts.




Lemma crawl_depth_bound_witness :
  deepCrawlWebsite CrawlSamples.fetch CrawlSamples.resolve CrawlSamples.hostname 1
    Endpoints.dewr dewrOptions 2 newIndexer = newIndexer.
Proof.
  apply (proj1 (crawl_depth_bound CrawlSamples.fetch CrawlSamples.resolve
                  CrawlSamples.hostname 1)).
  left. vm_compute. lia.
Defined.

(** C4, at the failing input: the DEWR site answers in both cycles.  The
    first cycle requests the seed once and stores its two pages; the refresh
    issues no request for the seed (only the one for the ABS codelist is
    new), because the seed is still in the visited set, and leaves no
    document. *)
Theorem refresh_does_not_crawl_again :
  CrawlSamples.fetch Endpoints.dewr ≠ None
  ∧ List.map item_url (documents CrawlSamples.started)
    = [Some Endpoints.dewr; Some CrawlSamples.dataUrl]
  ∧ Endpoints.dewr ∈ crawledUrls CrawlSamples.started
  ∧ requests CrawlSamples.refreshed
    = (requests CrawlSamples.started ++ [Endpoints.absCodelist])%list
  ∧ documents CrawlSamples.refreshed = []
  ∧ List.length (contentSections CrawlSamples.refreshed) = 2%nat.
Proof.
  split; [done|]. split; [by vm_compute|].
  split; [by vm_compute|].
  split; [by vm_compute|]. split; by vm_compute.
Qed.

(** ** Statistics *)

(** C9, as amended.  [getStats] reports the numbers of datasets, APIs and
    documents, their sum as total, and the time of the last update; the
    sections are not counted: the total and the number of sections add up to
    the number of indexed items. *)
Theorem stats_count_three_collections ix :
  stats_datasets (getStats ix) = List.length (datasets ix)
  ∧ stats_apis (getStats ix) = List.length (apis ix)
  ∧ stats_documents (getStats ix) = List.length (documents ix)
  ∧ stats_total (getStats ix)
    = (List.length (datasets ix) + List.length (apis ix)
       + List.length (documents ix))%nat
  ∧ stats_lastUpdated (getStats ix) = lastUpdated ix
  ∧ (stats_total (getStats ix) + List.length (contentSections ix))%nat
    = List.length (allItems ix).
Proof.
  repeat split. unfold allItems, getStats. cbn [stats_total].
  rewrite !length_app, !length_map. lia.
Qed.

(** C9, the counterexample: after the first indexing run of the sample site
    the index holds four items, two of them sections, and the total is 2. *)
Lemma stats_total_misses_sections :
  List.length (allItems CrawlSamples.started) = 4%nat
  ∧ List.length (contentSections CrawlSamples.started) = 2%nat
  ∧ stats_total (getStats CrawlSamples.started) = 2%nat.
Proof. split; [|split]; by vm_compute. Qed.

(** ** The guard of search *)

(** C6, as amended.  [search] returns the empty result, without suggestions,
    when the index has not been built or the query is absent or the empty
    string, whatever the index would answer. *)
Theorem search_empty_without_index_or_query fuseSearch ix query options :
  searchIndex ix = None ∨ query = None ∨ query = Some EmptyString →
  search fuseSearch ix query options = emptyResponse query options
  ∧ resp_results (search fuseSearch ix query options) = []
  ∧ resp_total (search fuseSearch ix query options) = 0%nat.
Proof.
  intros H.
  assert (E : search fuseSearch ix query options = emptyResponse query options).
  { unfold search. destruct H as [->|[->| ->]]; [done| |];
      by destruct (searchIndex ix). }
  by rewrite E.
Qed.

Lemma search_empty_without_index_or_query_witness :
  resp_results
    (search SearchSamples.titleIndex SearchSamples.indexer (Some EmptyString)
       SearchSamples.noOptions) = []
  ∧ resp_total
      (search SearchSamples.titleIndex SearchSamples.indexer (Some EmptyString)
         SearchSamples.noOptions) = 0%nat.
Proof.
  apply (search_empty_without_index_or_query SearchSamples.titleIndex
           SearchSamples.indexer (Some EmptyString) SearchSamples.noOptions).
  right. right. reflexivity.
Defined.

(** C6, the counterexample: with the index built over a record whose title
    has three blanks in a row, the query of three blanks passes the guard
    and comes back with that record, found by the exact-phrase strategy. *)
Lemma search_blank_query_not_empty :
  Str.allSpace "   " = true
  ∧ searchIndex SearchSamples.indexer ≠ None
  ∧ List.map (λ r, (item_id (sr_item r), sr_searchType r))
      (resp_results
         (search SearchSamples.titleIndex SearchSamples.indexer (Some "   ")
            SearchSamples.noOptions))
    = [(Some "census-2021", exact)]
  ∧ resp_total
      (search SearchSamples.titleIndex SearchSamples.indexer (Some "   ")
         SearchSamples.noOptions) = 1%nat.
Proof. split; [done|]. split; [done|]. split; by vm_compute. Qed.

(** * Further properties of the crawler *)

Section CrawlerExtras.

Variable fetch : World.
Variable resolve : string → string → option string.
Variable hostname : string → option string.
Variable now : N.

Local Abbreviation crawl := (crawlWithin fetch resolve hostname now).
Local Abbreviation follow := (linksToFollow resolve hostname).

Lemma uniqueFrom_not_seen seen links l : l ∈ uniqueFrom seen links → l ∉ seen.
Proof.
  revert seen. induction links as [|x links IH]; simpl; intros seen;
    [by intros ?%elem_of_nil|].
  case_bool_decide as Hx.
  - apply IH.
  - intros [->|Hl]%elem_of_cons; [done|].
    apply IH in Hl. by apply not_elem_of_cons in Hl as [_ ?].
Qed.

Lemma uniqueFrom_NoDup seen links : NoDup (uniqueFrom seen links).
Proof.
  revert seen. induction links as [|x links IH]; simpl; intros seen;
    [constructor|].
  case_bool_decide as Hx; [apply IH|].
  constructor; [|apply IH].
  intros Hin%uniqueFrom_not_seen. apply Hin. left.
Qed.

Lemma List_filter_sublist {A : Type} (f : A → bool) (l : list A) :
  List.filter f l `sublist_of` l.
Proof.
  induction l as [|x l IH]; simpl; [constructor|].
  destruct (f x); by constructor.
Qed.

Lemma filterRelevantLinks_filter links tags :
  filterRelevantLinks links tags = List.filter (isRelevantLink tags) links.
Proof. reflexivity. Qed.

Lemma linksToFollow_facts pg baseUrl options crawled :
  (List.length (follow pg baseUrl options crawled) ≤ 5)%nat
  ∧ NoDup (follow pg baseUrl options crawled)
  ∧ ∀ l, l ∈ follow pg baseUrl options crawled →
      (∃ href, href ∈ pg_hrefs pg ∧ href ≠ EmptyString
               ∧ resolve href baseUrl = Some l)
      ∧ is_Some (hostname baseUrl)
      ∧ hostname l = hostname baseUrl
      ∧ (l ∉ crawled)
      ∧ isRelevantLink (opt_tags options) l = true.
Proof.
  unfold linksToFollow. split; [|split].
  - rewrite length_take. lia.
  - eapply sublist_NoDup; [|apply sublist_take].
    eapply sublist_NoDup; [|apply List_filter_sublist]. unfold extractInternalLinks.
    destruct (hostname baseUrl); [apply uniqueFrom_NoDup|constructor].
  - intros l Hl%subseteq_take.
    rewrite filterRelevantLinks_filter in Hl.
    apply list_elem_of_In, filter_In in Hl as [Hl Hrel].
    apply list_elem_of_In in Hl. unfold extractInternalLinks in Hl.
    destruct (hostname baseUrl) as [baseHost|] eqn:Hb; [|by apply elem_of_nil in Hl].
    apply uniqueFrom_elem, list_elem_of_omap in Hl as (href & Hin & Hl).
    destruct href as [|c href]; [done|]. cbn [Str.truthy negb] in Hl.
    destruct (resolve (String c href) baseUrl) as [absoluteUrl|] eqn:Hres;
      simpl in Hl; [|done].
    destruct (hostname absoluteUrl) as [linkHost|] eqn:Hh; simpl in Hl; [|done].
    destruct (String.eqb_spec linkHost baseHost) as [->|]; simpl in Hl; [|done].
    case_bool_decide; simpl in Hl; [done|]. injection Hl as <-.
    repeat split; eauto.
Qed.

(** X3. The links that the crawler follows from a page: at most five, no
    link twice, and each one comes from an [href] of the page, is on the
    host of the page, has not been visited, and passes the relevance test. *)
Theorem links_to_follow_bounded_and_filtered pg baseUrl options crawled :
  (List.length (follow pg baseUrl options crawled) ≤ 5)%nat
  ∧ NoDup (follow pg baseUrl options crawled)
  ∧ ∀ l, l ∈ follow pg baseUrl options crawled →
      (∃ href, href ∈ pg_hrefs pg ∧ href ≠ EmptyString
               ∧ resolve href baseUrl = Some l)
      ∧ is_Some (hostname baseUrl)
      ∧ hostname l = hostname baseUrl
      ∧ (l ∉ crawled)
      ∧ isRelevantLink (opt_tags options) l = true.
Proof. apply linksToFollow_facts. Qed.


Lemma crawlGrowth_refl ix ix' :
  requests ix' = requests ix → crawledUrls ix' = crawledUrls ix →
  crawlGrowth ix ix' [].
Proof.
  intros Hr Hc. split; [by rewrite app_nil_r|]. split; [rewrite Hc; set_solver|].
  split; [constructor|]. by intros u ?%elem_of_nil.
Qed.

Lemma crawlGrowth_trans a b c n1 n2 :
  crawlGrowth a b n1 → crawlGrowth b c n2 → crawlGrowth a c (n1 ++ n2).
Proof.
  intros (R1 & C1 & N1 & D1) (R2 & C2 & N2 & D2).
  split; [by rewrite R2, R1, app_assoc|].
  split; [rewrite C2, C1; set_solver|].
  split.
  - apply NoDup_app. split; [done|]. split; [|done].
    intros u Hu Hu'. apply (D2 u Hu'). rewrite C1. set_solver.
  - intros u [Hu|Hu]%elem_of_app; [by apply D1|].
    apply D2 in Hu. rewrite C1 in Hu. set_solver.
Qed.

Lemma crawlWithin_growth options budget :
  ∀ baseUrl currentDepth ix, ∃ new,
    crawlGrowth ix (crawl budget baseUrl options currentDepth ix) new.
Proof.
  induction budget as [|budget IH]; intros baseUrl currentDepth ix;
    cbn [crawlWithin].
  - exists []. by apply crawlGrowth_refl.
  - destruct ((maxDepthOf options <=? currentDepth)%nat
              || bool_decide (baseUrl ∈ crawledUrls ix)) eqn:G.
    { exists []. by apply crawlGrowth_refl. }
    apply orb_false_iff in G as [_ G]. apply bool_decide_eq_false in G.
    set (ix1 := set_crawledUrls _ ix).
    assert (H1 : ∀ ix2, requests ix2 = (requests ix ++ [baseUrl])%list →
              crawledUrls ix2 = {[ baseUrl ]} ∪ crawledUrls ix →
              crawlGrowth ix ix2 [baseUrl]).
    { intros ix2 Hr Hc. split; [done|]. split; [rewrite Hc; set_solver|].
      split; [apply NoDup_singleton|]. by intros u ->%list_elem_of_singleton. }
    unfold request. destruct (fetch baseUrl) as [pg|].
    2: { exists [baseUrl]. by apply H1. }
    set (ix3 := storePage now baseUrl options pg _).
    specialize (H1 ix3 eq_refl eq_refl).
    destruct (currentDepth <? maxDepthOf options - 1)%nat; [|by exists [baseUrl]].
    assert (Hfold : ∃ new, crawlGrowth ix3
              (fold_left (λ acc link, crawl budget link options (currentDepth + 1) acc)
                 (follow pg baseUrl options (crawledUrls ix3)) ix3) new).
    { generalize (follow pg baseUrl options (crawledUrls ix3)).
      generalize ix3. intros acc links. revert acc.
      induction links as [|link links IHl]; intros acc; cbn [fold_left].
      - exists []. by apply crawlGrowth_refl.
      - destruct (IH link (currentDepth + 1)%nat acc) as (n1 & Hn1).
        destruct (IHl (crawl budget link options (currentDepth + 1) acc))
          as (n2 & Hn2).
        exists (n1 ++ n2)%list. by eapply crawlGrowth_trans. }
    destruct Hfold as (new & Hnew).
    exists ([baseUrl] ++ new)%list. by eapply crawlGrowth_trans.
Qed.

Lemma crawlWithin_request_count options budget :
  ∀ baseUrl currentDepth ix,
    (List.length (requests (crawl budget baseUrl options currentDepth ix))
     ≤ List.length (requests ix) + maxRequests budget)%nat.
Proof.
  induction budget as [|budget IH]; intros baseUrl currentDepth ix;
    cbn [crawlWithin maxRequests]; [lia|].
  destruct ((maxDepthOf options <=? currentDepth)%nat
            || bool_decide (baseUrl ∈ crawledUrls ix)); [lia|].
  unfold request. destruct (fetch baseUrl) as [pg|].
  2: { cbn [requests set_requests]. rewrite length_app. simpl. lia. }
  set (ix3 := storePage now baseUrl options pg _).
  assert (H3 : List.length (requests ix3) = S (List.length (requests ix))).
  { subst ix3. cbn. rewrite length_app. simpl. lia. }
  destruct (currentDepth <? maxDepthOf options - 1)%nat; [|lia].
  pose proof (proj1 (linksToFollow_facts pg baseUrl options
                       (crawledUrls ix3))) as Hfive.
  revert Hfive. generalize (follow pg baseUrl options (crawledUrls ix3)).
  intros links Hfive.
  assert (Hfold : ∀ acc,
            (List.length
               (requests
                  (fold_left
                     (λ acc link, crawl budget link options (currentDepth + 1) acc)
                     links acc))
             ≤ List.length (requests acc)
               + List.length links * maxRequests budget)%nat).
  { clear Hfive. induction links as [|link links IHl]; intros acc;
      cbn [fold_left]; [simpl; lia|].
    specialize (IHl (crawl budget link options (currentDepth + 1) acc)).
    specialize (IH link (currentDepth + 1)%nat acc). simpl List.length. lia. }
  specialize (Hfold ix3).
  assert (List.length links * maxRequests budget ≤ 5 * maxRequests budget)%nat
    by (apply Nat.mul_le_mono_r; lia).
  lia.
Qed.

End CrawlerExtras.

(** X1. A crawl never requests a URL of the visited set and never requests
    a URL twice: the requests it adds are pairwise different, none was
    visited before, and the visited set grows by exactly the URLs
    requested. *)
Theorem crawl_requests_at_most_once fetch resolve hostname now
    baseUrl options currentDepth ix :
  ∃ new,
    requests
      (deepCrawlWebsite fetch resolve hostname now baseUrl options currentDepth ix)
    = (requests ix ++ new)%list
    ∧ crawledUrls
        (deepCrawlWebsite fetch resolve hostname now baseUrl options currentDepth ix)
      = crawledUrls ix ∪ list_to_set new
    ∧ NoDup new
    ∧ ∀ u, u ∈ new → u ∉ crawledUrls ix.
Proof. apply crawlWithin_growth. Qed.

(** X2. A crawl from a seed issues at most [1 + 5 + ... + 5^(maxDepth-1)]
    requests: six for the depth 2 of the three configured sites. *)
Theorem crawl_request_count_bounded fetch resolve hostname now seed options ix :
  (List.length
     (requests (deepCrawlWebsite fetch resolve hostname now seed options 0 ix))
   ≤ List.length (requests ix) + maxRequests (maxDepthOf options))%nat
  ∧ maxRequests (maxDepthOf dewrOptions) = 6%nat.
Proof.
  split; [|done]. unfold deepCrawlWebsite.
  rewrite Nat.sub_0_r. apply crawlWithin_request_count.
Qed.

(** X4. When the request for a page fails, the crawl only marks the URL as
    visited: nothing is stored, and no later crawl, in whatever world,
    requests that URL again. *)
Theorem failed_page_is_not_retried fetch resolve hostname now
    baseUrl options currentDepth ix :
  (currentDepth < maxDepthOf options)%nat → baseUrl ∉ crawledUrls ix →
  fetch baseUrl = None →
  let ix' :=
    deepCrawlWebsite fetch resolve hostname now baseUrl options currentDepth ix in
  ix' = set_requests (requests ix ++ [baseUrl])
          (set_crawledUrls ({[ baseUrl ]} ∪ crawledUrls ix) ix)
  ∧ documents ix' = documents ix
  ∧ contentSections ix' = contentSections ix
  ∧ ∀ fetch' resolve' hostname' now' options' depth',
      deepCrawlWebsite fetch' resolve' hostname' now' baseUrl options' depth' ix'
      = ix'.
Proof.
  intros Hd Hv Hf ix'.
  assert (E : ix' = set_requests (requests ix ++ [baseUrl])
                      (set_crawledUrls ({[ baseUrl ]} ∪ crawledUrls ix) ix)).
  { subst ix'. rewrite deepCrawlWebsite_unfold.
    apply Nat.leb_gt in Hd. rewrite Hd, (bool_decide_eq_false_2 _ Hv).
    cbn [orb]. unfold request. by rewrite Hf. }
  split; [done|]. rewrite E. split; [done|]. split; [done|].
  intros fetch' resolve' hostname' now' options' depth'.
  rewrite deepCrawlWebsite_unfold.
  rewrite (bool_decide_eq_true_2 (baseUrl ∈ _)); [by rewrite orb_true_r|].
  cbn. set_solver.
Qed.

Lemma failed_page_is_not_retried_witness :
  documents
    (deepCrawlWebsite CrawlSamples.offline CrawlSamples.resolve
       CrawlSamples.hostname 1 Endpoints.dewr dewrOptions 0 newIndexer)
  = documents newIndexer.
Proof.
  apply (failed_page_is_not_retried CrawlSamples.offline CrawlSamples.resolve
           CrawlSamples.hostname 1 Endpoints.dewr dewrOptions 0 newIndexer).
  - vm_compute. lia.
  - apply not_elem_of_empty.
  - reflexivity.
Defined.

(** X5. The three requests of [fetchABSData] share one [try]: when the
    codelist request fails nothing is stored and the other two endpoints
    are not requested; when the dataflow request fails after it, the
    codelist dataset is kept and the specification document is never
    requested. *)
Theorem abs_fetch_stops_at_first_failure fetch now ix :
  (fetch Endpoints.absCodelist = None →
   fetchABSData fetch now ix
   = set_requests (requests ix ++ [Endpoints.absCodelist]) ix)
  ∧ (is_Some (fetch Endpoints.absCodelist) →
     fetch Endpoints.absDataflow = None →
     datasets (fetchABSData fetch now ix)
     = (datasets ix ++ fetchedDatasets fetch now)%list
     ∧ apis (fetchABSData fetch now ix) = apis ix
     ∧ documents (fetchABSData fetch now ix) = documents ix
     ∧ requests (fetchABSData fetch now ix)
       = (requests ix ++ [Endpoints.absCodelist; Endpoints.absDataflow])%list).
Proof.
  unfold fetchABSData, fetchedDatasets, request. split.
  - by intros ->.
  - intros [r1 ->] ->.
    destruct (Str.truthy (Some (pg_data r1)));
      cbn; rewrite <- ?app_assoc, ?app_nil_r; done.
Qed.

Lemma abs_fetch_stops_at_first_failure_witness :
  fetchABSData CrawlSamples.offline 1 newIndexer
  = set_requests (requests newIndexer ++ [Endpoints.absCodelist]) newIndexer.
Proof.
  apply (proj1 (abs_fetch_stops_at_first_failure CrawlSamples.offline 1 newIndexer)).
  reflexivity.
Defined.

(** * Further properties of the search *)

Lemma insertDesc_perm {A : Type} (key : A → Qc) x l : insertDesc key x l ≡ₚ x :: l.
Proof.
  induction l as [|y l IH]; simpl; [done|].
  destruct (decide (key x < key y)%Qc); [|done].
  rewrite IH. apply Permutation_swap.
Qed.

Lemma sortDesc_perm {A : Type} (key : A → Qc) l : sortDesc key l ≡ₚ l.
Proof.
  unfold sortDesc. induction l as [|x l IH]; simpl; [done|].
  by rewrite insertDesc_perm, IH.
Qed.

Lemma insertDesc_descending {A : Type} (key : A → Qc) x l :
  descendingBy key l → descendingBy key (insertDesc key x l).
Proof.
  unfold descendingBy. induction l as [|y l IH]; simpl; intros Hs.
  - by repeat constructor.
  - apply StronglySorted_cons in Hs as [Hy Hs].
    destruct (decide (key x < key y)%Qc) as [Hlt|Hge].
    + apply StronglySorted_cons. split; [|by apply IH].
      rewrite insertDesc_perm. constructor; [|done]. by apply Qclt_le_weak.
    + apply Qcnot_lt_le in Hge. apply StronglySorted_cons. split.
      * constructor; [done|]. eapply Forall_impl; [exact Hy|].
        intros z Hz. simpl in Hz. by eapply Qcle_trans.
      * apply StronglySorted_cons. by split.
Qed.

Lemma sortDesc_descending {A : Type} (key : A → Qc) l :
  descendingBy key (sortDesc key l).
Proof.
  unfold sortDesc. induction l as [|x l IH]; simpl; [constructor|].
  by apply insertDesc_descending.
Qed.

Lemma descendingBy_take {A : Type} (key : A → Qc) n l :
  descendingBy key l → descendingBy key (take n l).
Proof.
  unfold descendingBy. intros H. rewrite <- (take_drop n l) in H.
  by apply StronglySorted_app_1_l in H.
Qed.

Lemma descendingBy_map {A B : Type} (f : A → B) (key : B → Qc) l :
  descendingBy (λ a, key (f a)) l → descendingBy key (List.map f l).
Proof.
  unfold descendingBy. induction 1 as [|x l Hs IH Hall]; simpl; constructor;
    [done|]. by apply Forall_fmap.
Qed.

(** X6. [sortDesc], the sort of the results, returns a rearrangement of its
    input in descending order of the score. *)
Theorem sort_is_descending_permutation {A : Type} (key : A → Qc) (l : list A) :
  sortDesc key l ≡ₚ l ∧ descendingBy key (sortDesc key l).
Proof. split; [apply sortDesc_perm|apply sortDesc_descending]. Qed.

(** ** The merge *)

Lemma mapGet_Some_elem k v m : mapGet k m = Some v → (k, v) ∈ m.
Proof.
  induction m as [|[k0 v0] m IH]; simpl; [done|].
  destruct (String.eqb_spec k k0) as [->|_].
  - intros [= ->]. left.
  - intros H. right. by apply IH.
Qed.

Lemma mapGet_is_Some_keys k m : is_Some (mapGet k m) ↔ k ∈ List.map fst m.
Proof.
  induction m as [|[k0 v0] m IH]; simpl.
  - split; [by intros [? ?]|by intros ?%elem_of_nil].
  - destruct (String.eqb_spec k k0) as [->|Hne].
    + split; [intros _; left|by eexists].
    + rewrite IH. rewrite elem_of_cons. naive_solver.
Qed.

Lemma mapSet_elem k v m kv : kv ∈ mapSet k v m → kv = (k, v) ∨ kv ∈ m.
Proof.
  induction m as [|[k0 v0] m IH]; simpl.
  - intros ->%list_elem_of_singleton. by left.
  - destruct (String.eqb_spec k k0) as [->|Hne].
    + intros [->|H]%elem_of_cons; [by left|right; by right].
    + intros [->|H]%elem_of_cons; [right; left|].
      destruct (IH H) as [->|?]; [by left|right; by right].
Qed.

Lemma mergeHits_values queryAnalysis results v :
  v ∈ mapValues (mergeHits queryAnalysis results) →
  ∃ h, h ∈ results ∧ v = rank queryAnalysis h.
Proof.
  unfold mapValues, mergeHits.
  intros (kv & -> & Hkv)%list_elem_of_fmap.
  assert (H : ∀ m, kv ∈ fold_left (mergeHit queryAnalysis) results m →
            kv ∈ m ∨ ∃ h, h ∈ results ∧ snd kv = rank queryAnalysis h).
  { clear Hkv. induction results as [|r results IH]; intros m; cbn [fold_left];
      [by left|].
    intros [Hin|(h & Hh & E)]%IH; [|right; exists h; split; [by right|done]].
    unfold mergeHit in Hin.
    destruct (mapGet (resultKey r) m) as [ex|];
      [destruct (overrides ex r)|]; try (by left);
      apply mapSet_elem in Hin as [->|?]; try (by left);
      right; exists r; split; try left; done. }
  destruct (H [] Hkv) as [?%elem_of_nil|?]; done.
Qed.

Lemma uniqueFrom_seen_equiv seen seen' links :
  (∀ x, x ∈ seen ↔ x ∈ seen') → uniqueFrom seen links = uniqueFrom seen' links.
Proof.
  revert seen seen'. induction links as [|l links IH]; intros seen seen' H;
    simpl; [done|].
  rewrite (bool_decide_ext _ _ (H l)).
  case_bool_decide; [by apply IH|]. f_equal. apply IH.
  intros x. rewrite !elem_of_cons. by rewrite H.
Qed.

Lemma mergeHit_keys queryAnalysis m r :
  List.map fst (mergeHit queryAnalysis m r)
  = if bool_decide (resultKey r ∈ List.map fst m) then List.map fst m
    else (List.map fst m ++ [resultKey r])%list.
Proof.
  unfold mergeHit.
  destruct (mapGet (resultKey r) m) as [ex|] eqn:E.
  - rewrite bool_decide_eq_true_2
      by (apply mapGet_is_Some_keys; by rewrite E).
    destruct (overrides ex r); [|done]. by rewrite mapSet_keys, E.
  - rewrite bool_decide_eq_false_2
      by (rewrite <- mapGet_is_Some_keys, E; by intros [? ?]).
    by rewrite mapSet_keys, E.
Qed.

Lemma fold_mergeHit_keys queryAnalysis results m :
  List.map fst (fold_left (mergeHit queryAnalysis) results m)
  = (List.map fst m
     ++ uniqueFrom (List.map fst m) (List.map resultKey results))%list.
Proof.
  revert m. induction results as [|r results IH]; intros m;
    cbn [fold_left List.map uniqueFrom]; [by rewrite app_nil_r|].
  rewrite IH, mergeHit_keys.
  case_bool_decide as Hin; [done|].
  rewrite <- app_assoc. simpl. do 2 f_equal.
  apply uniqueFrom_seen_equiv. intros x.
  set_solver.
Qed.

Lemma mergeHits_keys_NoDup queryAnalysis results :
  NoDup (List.map (λ r, resultKey (rk_hit r))
           (mapValues (mergeHits queryAnalysis results))).
Proof.
  destruct (mergeHits_wellFormed queryAnalysis results) as [Hnd Hall].
  unfold mapValues. rewrite List.map_map.
  erewrite map_ext_Forall; [exact Hnd|].
  eapply Forall_impl; [exact Hall|]. by intros [k v].
Qed.

(** X7. The merged map lists the records in the order in which they were
    first hit, each once; every entry is one of the hits, with the score
    computed from that hit; and the entry kept for a record depends only on
    the hits for that record, taken in their order. *)
Theorem merge_keeps_first_hit_order queryAnalysis results :
  List.map fst (mergeHits queryAnalysis results)
  = unique (List.map resultKey results)
  ∧ NoDup (List.map (λ r, resultKey (rk_hit r))
             (mapValues (mergeHits queryAnalysis results)))
  ∧ (∀ v, v ∈ mapValues (mergeHits queryAnalysis results) →
       ∃ h, h ∈ results ∧ rk_hit v = h
            ∧ rk_relevanceScore v = calculateRelevanceScore h queryAnalysis)
  ∧ (∀ k, mapGet k (mergeHits queryAnalysis results)
          = fold_left (mergeOne queryAnalysis)
              (List.filter (hasKey k) results) None).
Proof.
  split; [|split; [|split]].
  - unfold mergeHits, unique. by rewrite fold_mergeHit_keys.
  - apply mergeHits_keys_NoDup.
  - intros v (h & Hh & ->)%mergeHits_values. by exists h.
  - intros k. unfold mergeHits. by rewrite fold_mergeHit_key.
Qed.

(** ** The response of search *)

Lemma search_cases fuseSearch ix query options :
  search fuseSearch ix query options = emptyResponse query options
  ∨ ∃ index q,
      searchIndex ix = Some index ∧ query = Some q ∧ q ≠ EmptyString
      ∧ resp_results (search fuseSearch ix query options)
        = List.map (toSearchResult (analyzeQuery q))
            (rankedResults fuseSearch ix index q options)
      ∧ resp_total (search fuseSearch ix query options)
        = List.length (rankedResults fuseSearch ix index q options).
Proof.
  unfold search.
  destruct (searchIndex ix) as [index|]; [|by left].
  destruct query as [[|c q]|]; [by left| |by left].
  right. exists index, (String c q). by repeat split.
Qed.

Lemma applyFilter_sublist wanted field results :
  applyFilter wanted field results `sublist_of` results.
Proof.
  unfold applyFilter. destruct (Str.truthy wanted); [|done].
  apply List_filter_sublist.
Qed.

Lemma applyFilter_holds wanted field results r :
  Str.truthy wanted = true → r ∈ applyFilter wanted field results →
  field r = wanted.
Proof.
  unfold applyFilter. intros ->.
  intros [_ H]%list_elem_of_In%filter_In. by apply bool_decide_eq_true in H.
Qed.

Lemma rankedResults_from_merge fuseSearch ix index q options r :
  r ∈ rankedResults fuseSearch ix index q options →
  r ∈ mapValues
        (mergeHits (analyzeQuery q)
           (strategyHits fuseSearch ix index q (analyzeQuery q)))
  ∧ (Str.truthy (so_category options) = true →
     item_category (hit_item (rk_hit r)) = so_category options)
  ∧ (Str.truthy (so_source options) = true →
     Some (item_source (hit_item (rk_hit r))) = so_source options)
  ∧ (Str.truthy (so_type options) = true →
     Some (item_type (hit_item (rk_hit r))) = so_type options).
Proof.
  unfold rankedResults, slice0. intros Hr%subseteq_take.
  rewrite sortDesc_perm in Hr.
  set (m := mapValues _) in *.
  set (f1 := applyFilter (so_category options) _ m) in *.
  set (f2 := applyFilter (so_source options) _ f1) in *.
  assert (H2 : r ∈ f2) by (eapply sublist_subseteq; [apply applyFilter_sublist|done]).
  assert (H1 : r ∈ f1) by (eapply sublist_subseteq; [apply applyFilter_sublist|done]).
  assert (H0 : r ∈ m) by (eapply sublist_subseteq; [apply applyFilter_sublist|done]).
  split; [done|]. split; [|split]; intros Ht.
  - exact (applyFilter_holds (so_category options)
             (λ r, item_category (hit_item (rk_hit r))) m r Ht H1).
  - exact (applyFilter_holds (so_source options)
             (λ r, Some (item_source (hit_item (rk_hit r)))) f1 r Ht H2).
  - exact (applyFilter_holds (so_type options)
             (λ r, Some (item_type (hit_item (rk_hit r)))) f2 r Ht Hr).
Qed.

Lemma rankedResults_keys_NoDup fuseSearch ix index q options :
  NoDup (List.map (λ r, resultKey (rk_hit r))
           (rankedResults fuseSearch ix index q options)).
Proof.
  unfold rankedResults, slice0.
  eapply sublist_NoDup; [|apply fmap_sublist, sublist_take].
  rewrite sortDesc_perm.
  eapply sublist_NoDup;
    [|apply fmap_sublist; etrans; [apply applyFilter_sublist|];
      etrans; apply applyFilter_sublist].
  apply mergeHits_keys_NoDup.
Qed.

Lemma search_results_eq fuseSearch ix query options :
  resp_results (search fuseSearch ix query options)
  = match searchIndex ix, query with
    | Some index, Some (String c q) =>
        List.map (toSearchResult (analyzeQuery (String c q)))
          (rankedResults fuseSearch ix index (String c q) options)
    | _, _ => []
    end.
Proof.
  unfold search. destruct (searchIndex ix) as [index|]; [|done].
  by destruct query as [[|c q]|].
Qed.

Lemma sliceEnd_cases len stop :
  (sliceEnd len stop ≤ len)%nat
  ∧ (∀ q, stop = Finite q → (0 ≤ truncate q)%Z →
       sliceEnd len stop = Nat.min (Z.to_nat (truncate q)) len)
  ∧ (∀ q, stop = Finite q → (truncate q < 0)%Z →
       sliceEnd len stop = (len - Z.to_nat (- truncate q))%nat)
  ∧ (stop = NaN → sliceEnd len stop = 0%nat)
  ∧ (stop = PosInfinity → sliceEnd len stop = len).
Proof.
  unfold sliceEnd. repeat split.
  - destruct stop as [q| | |]; try lia.
    destruct (truncate q <? 0)%Z eqn:E; [apply Z.ltb_lt in E|]; lia.
  - intros q -> Hq. apply Z.ltb_ge in Hq. by rewrite Hq.
  - intros q -> Hq. pose proof Hq as Hq'. apply Z.ltb_lt in Hq'.
    rewrite Hq'. lia.
  - by intros ->.
  - by intros ->.
Qed.

Lemma slice0_nil {A : Type} stop : slice0 stop ([] : list A) = [].
Proof. unfold slice0. apply take_nil. Qed.

Lemma slice0_PosInfinity {A : Type} (l : list A) : slice0 PosInfinity l = l.
Proof. unfold slice0. simpl. by rewrite firstn_all. Qed.

Lemma rankedResults_limit fuseSearch ix index q options :
  rankedResults fuseSearch ix index q options
  = slice0 (default (Finite (num 50)) (so_limit options))
      (rankedResults fuseSearch ix index q (withLimit (Some PosInfinity) options)).
Proof.
  unfold rankedResults at 2. cbn [so_limit withLimit default so_category
    so_source so_type]. by rewrite slice0_PosInfinity.
Qed.

Lemma search_limit fuseSearch ix query options :
  resp_results (search fuseSearch ix query options)
  = slice0 (default (Finite (num 50)) (so_limit options))
      (resp_results
         (search fuseSearch ix query (withLimit (Some PosInfinity) options))).
Proof.
  rewrite !search_results_eq.
  destruct (searchIndex ix) as [index|]; [|by rewrite slice0_nil].
  destruct query as [[|c q]|]; [by rewrite slice0_nil| |by rewrite slice0_nil].
  rewrite (rankedResults_limit fuseSearch ix index (String c q) options).
  unfold slice0. by rewrite length_map, fmap_take.
Qed.

(** X8. The [total] of a response is the number of results returned, and
    the results come in descending order of their relevance score.  They
    are [slice(0, limit)] of the ranked list (the results for an unbounded
    limit): at most 50 when no limit is given, at most [n] for a limit that
    truncates to [n >= 0]; a limit that truncates to [-k] drops just the
    last [k] results of the ranked list, so it does not bound their number;
    and [NaN] gives no result. *)
Theorem search_results_bounded_and_sorted fuseSearch ix query options :
  let ranked :=
    resp_results
      (search fuseSearch ix query (withLimit (Some PosInfinity) options)) in
  resp_total (search fuseSearch ix query options)
  = List.length (resp_results (search fuseSearch ix query options))
  ∧ descendingBy sr_relevanceScore
      (resp_results (search fuseSearch ix query options))
  ∧ resp_results (search fuseSearch ix query options)
    = slice0 (default (Finite (num 50)) (so_limit options)) ranked
  ∧ (so_limit options = None →
     resp_results (search fuseSearch ix query options) = take 50 ranked
     ∧ (List.length (resp_results (search fuseSearch ix query options))
        ≤ 50)%nat)
  ∧ (∀ q, so_limit options = Some (Finite q) → (0 ≤ truncate q)%Z →
       resp_results (search fuseSearch ix query options)
       = take (Z.to_nat (truncate q)) ranked
       ∧ (List.length (resp_results (search fuseSearch ix query options))
          ≤ Z.to_nat (truncate q))%nat)
  ∧ (∀ q, so_limit options = Some (Finite q) → (truncate q < 0)%Z →
       resp_results (search fuseSearch ix query options)
       = take (List.length ranked - Z.to_nat (- truncate q)) ranked)
  ∧ (so_limit options = Some NaN →
     resp_results (search fuseSearch ix query options) = []).
Proof.
  intros ranked.
  assert (Htake : ∀ n, take (Nat.min n (List.length ranked)) ranked
                       = take n ranked).
  { intros n. destruct (decide (n ≤ List.length ranked)%nat).
    - by rewrite Nat.min_l.
    - rewrite Nat.min_r by lia. by rewrite !take_ge by lia. }
  split; [|split; [|split; [apply search_limit|]]].
  - destruct (search_cases fuseSearch ix query options)
      as [->|(index & q & _ & _ & _ & -> & ->)]; [done|].
    by rewrite length_map.
  - destruct (search_cases fuseSearch ix query options)
      as [->|(index & q & _ & _ & _ & -> & _)]; [constructor|].
    apply descendingBy_map. unfold rankedResults, slice0.
    apply descendingBy_take, sortDesc_descending.
  - rewrite search_limit. fold ranked. unfold slice0.
    split; [|split; [|split]].
    + intros ->. cbn [default].
      assert (E : sliceEnd (List.length ranked) (Finite (num 50))
                  = Nat.min 50 (List.length ranked)) by done.
      rewrite E, Htake. split; [done|]. rewrite length_take. lia.
    + intros q -> Hq. cbn [default id].
      rewrite (proj1 (proj2 (sliceEnd_cases (List.length ranked) (Finite q)))
                 q eq_refl Hq), Htake.
      split; [done|]. rewrite length_take. lia.
    + intros q -> Hq. cbn [default id].
      by rewrite (proj1 (proj2 (proj2 (sliceEnd_cases (List.length ranked)
                                         (Finite q)))) q eq_refl Hq).
    + by intros ->.
Qed.

(** X9. [search] never returns a record twice (no two results share the
    key [id || title]); every result passes each filter that is set; and
    every result is a hit of one of the four strategies, carrying the raw
    score, the strategy and the relevance score of that hit. *)
Theorem search_results_unique_and_filtered fuseSearch ix query options :
  NoDup (List.map (λ r, itemKey (sr_item r))
           (resp_results (search fuseSearch ix query options)))
  ∧ ∀ r, r ∈ resp_results (search fuseSearch ix query options) →
      (Str.truthy (so_category options) = true →
       item_category (sr_item r) = so_category options)
      ∧ (Str.truthy (so_source options) = true →
         Some (item_source (sr_item r)) = so_source options)
      ∧ (Str.truthy (so_type options) = true →
         Some (item_type (sr_item r)) = so_type options)
      ∧ ∃ index q h,
          searchIndex ix = Some index ∧ query = Some q
          ∧ h ∈ strategyHits fuseSearch ix index q (analyzeQuery q)
          ∧ sr_item r = hit_item h ∧ sr_score r = hit_score h
          ∧ sr_searchType r = hit_searchType h
          ∧ sr_relevanceScore r = calculateRelevanceScore h (analyzeQuery q).
Proof.
  destruct (search_cases fuseSearch ix query options)
    as [->|(index & q & Hix & -> & _ & -> & _)].
  - split; [constructor|]. by intros r ?%elem_of_nil.
  - split.
    + rewrite List.map_map. apply rankedResults_keys_NoDup.
    + intros r (v & -> & Hv)%list_elem_of_fmap.
      apply rankedResults_from_merge in Hv as (Hm & Hc & Hs & Ht).
      repeat split; try done.
      apply mergeHits_values in Hm as (h & Hh & ->).
      by exists index, q, h.
Qed.

(** ** Categories *)

Lemma allItems_categories ix it :
  it ∈ allItems ix → ∃ c, c ∈ indexCategories ∧ item_category it = Some c.
Proof.
  unfold allItems, indexCategories.
  rewrite !elem_of_app, !list_elem_of_fmap.
  intros [(x & -> & _)|[(x & -> & _)|[(x & -> & _)|(x & -> & _)]]];
    eexists; (split; [|reflexivity]); set_solver.
Qed.

Lemma sortDesc_elem {A : Type} (key : A → Qc) l x : x ∈ sortDesc key l ↔ x ∈ l.
Proof. by rewrite sortDesc_perm. Qed.

Lemma strategyHits_items fuseSearch ix index q queryAnalysis h :
  answersFromIndex fuseSearch →
  h ∈ strategyHits fuseSearch ix index q queryAnalysis →
  hit_item h ∈ allItems ix ∨ hit_item h ∈ index.
Proof.
  intros Hfuse. unfold strategyHits.
  rewrite !elem_of_app.
  intros [H|[H|[H|H]]].
  - left. destruct (qa_hasContext queryAnalysis); [|by apply elem_of_nil in H].
    unfold searchWithContext in H. apply sortDesc_elem in H.
    apply list_elem_of_omap in H as (it & Hit & Hh).
    unfold contextHit in Hh. case_match; [|done]. by injection Hh as <-.
  - right. apply list_elem_of_fmap in H as (r & -> & Hr). by eapply Hfuse.
  - right. apply list_elem_of_fmap in H as (r & -> & Hr). by eapply Hfuse.
  - right. apply list_elem_of_In, in_concat in H as (l & Hl & H).
    apply in_map_iff in Hl as (word & <- & _).
    apply list_elem_of_In, list_elem_of_fmap in H as (r & -> & Hr).
    by eapply Hfuse.
Qed.

(** X10. Every indexed item carries one of the four categories that
    [buildSearchIndex] stamps, whatever category it had before; so a search
    filtered on any other category, such as the ['custom'] that
    [addCustomData] gives to an item without category, returns nothing. *)
Theorem search_by_unstamped_category_is_empty fuseSearch ix ix0 query options c :
  answersFromIndex fuseSearch →
  searchIndex ix = Some (allItems ix0) →
  so_category options = Some c → c ≠ EmptyString → c ∉ indexCategories →
  (∀ it, it ∈ allItems ix0 →
     ∃ c', c' ∈ indexCategories ∧ item_category it = Some c')
  ∧ resp_results (search fuseSearch ix query options) = []
  ∧ resp_total (search fuseSearch ix query options) = 0%nat.
Proof.
  intros Hfuse Hix Hcat Hne Hc.
  split; [apply allItems_categories|].
  assert (E : resp_results (search fuseSearch ix query options) = []).
  { destruct (search_cases fuseSearch ix query options)
      as [->|(index & q & Hix' & -> & _ & -> & _)]; [done|].
    rewrite Hix in Hix'. injection Hix' as <-.
    destruct (rankedResults fuseSearch ix (allItems ix0) q options)
      as [|r rest] eqn:E; [done|]. exfalso.
    assert (Hr : r ∈ rankedResults fuseSearch ix (allItems ix0) q options)
      by (rewrite E; left).
    apply rankedResults_from_merge in Hr as (Hm & Hf & _).
    apply mergeHits_values in Hm as (h & Hh & ->).
    rewrite Hcat in Hf. specialize (Hf ltac:(by destruct c)).
    apply (strategyHits_items _ _ _ _ _ _ Hfuse) in Hh.
    assert (Hit : ∃ c', c' ∈ indexCategories
                       ∧ item_category (hit_item h) = Some c')
      by (destruct Hh; by eapply allItems_categories).
    destruct Hit as (c' & Hc' & Hitc). simpl in Hf. congruence. }
  split; [done|].
  destruct (search_cases fuseSearch ix query options)
    as [->|(index & q & _ & _ & _ & E' & ->)]; [done|].
  rewrite E' in E. apply (f_equal List.length) in E.
  by rewrite length_map in E.
Qed.

(** ** Scores of the hits *)

Lemma inverse_score_in_range (c : Z) :
  (0 < c)%Z →
  (num 0 ≤ num 1 / (num c + num 1))%Qc ∧ (num 1 / (num c + num 1) ≤ num 1)%Qc.
Proof.
  intros Hc.
  rewrite Zlt_Qlt in Hc. change (inject_Z 0) with 0%Q in Hc.
  unfold Qcle, Qcdiv, Qcinv.
  cbn [this Qcplus Qcmult Q2Qc num]. rewrite !Qred_correct.
  change (inject_Z 0) with 0%Q. change (inject_Z 1) with 1%Q.
  set (x := inject_Z c) in *. clearbody x.
  split.
  - apply Qle_shift_div_l; lra.
  - apply Qle_shift_div_r; lra.
Qed.

Lemma num_nonneg (c : Z) : (0 ≤ c)%Z → (num 0 ≤ num c)%Qc.
Proof.
  intros Hc. unfold Qcle, num. cbn [this Q2Qc]. rewrite !Qred_correct.
  by rewrite <- Zle_Qle.
Qed.

Lemma contextHit_spec queryAnalysis it h :
  contextHit queryAnalysis it = Some h →
  hit_item h = it ∧ hit_searchType h = semantic ∧ hit_matches h = None
  ∧ (0 < contextScoreOf queryAnalysis it)%Z
  ∧ hit_contextScore h = Some (num (contextScoreOf queryAnalysis it))
  ∧ hit_score h = (num 1 / (num (contextScoreOf queryAnalysis it) + num 1))%Qc.
Proof.
  unfold contextHit.
  destruct (0 <? contextScoreOf queryAnalysis it)%Z eqn:E; [|done].
  intros [= <-]. apply Z.ltb_lt in E. by repeat split.
Qed.

Lemma searchWithContext_hit ix queryAnalysis h :
  h ∈ searchWithContext ix queryAnalysis →
  hit_item h ∈ allItems ix
  ∧ hit_searchType h = semantic
  ∧ hit_matches h = None
  ∧ (0 < contextScoreOf queryAnalysis (hit_item h))%Z
  ∧ hit_contextScore h = Some (num (contextScoreOf queryAnalysis (hit_item h)))
  ∧ hit_score h
    = (num 1 / (num (contextScoreOf queryAnalysis (hit_item h)) + num 1))%Qc
  ∧ wellScored h.
Proof.
  intros Hh. unfold searchWithContext in Hh. apply sortDesc_elem in Hh.
  apply list_elem_of_omap in Hh as (it & Hit & Hh).
  apply contextHit_spec in Hh as (<- & Ht & Hm & Hpos & Hc & Hs).
  repeat split; try done.
  - rewrite Hs. by apply inverse_score_in_range.
  - rewrite Hs. by apply inverse_score_in_range.
  - rewrite Hc. intros c [= <-]. apply num_nonneg. lia.
Qed.

(** X11. The hits of the semantic strategy: each is an indexed item with a
    positive context score [c], tagged [semantic], without match positions,
    with raw score [1 / (c + 1)], which lies in [0, 1]; and they come in
    descending order of the context score. *)
Theorem semantic_hits_scored_and_sorted ix queryAnalysis :
  (∀ h, h ∈ searchWithContext ix queryAnalysis →
     hit_item h ∈ allItems ix
     ∧ hit_searchType h = semantic
     ∧ hit_matches h = None
     ∧ (0 < contextScoreOf queryAnalysis (hit_item h))%Z
     ∧ hit_contextScore h = Some (num (contextScoreOf queryAnalysis (hit_item h)))
     ∧ hit_score h
       = (num 1 / (num (contextScoreOf queryAnalysis (hit_item h)) + num 1))%Qc
     ∧ wellScored h)
  ∧ descendingBy (λ h, default (num 0) (hit_contextScore h))
      (searchWithContext ix queryAnalysis).
Proof.
  split; [|apply sortDesc_descending].
  apply searchWithContext_hit.
Qed.

Lemma relevance_bounds result queryAnalysis :
  (num 0 ≤ calculateRelevanceScore result queryAnalysis)%Qc
  ∧ (wellScored result →
     calculateRelevanceScore result queryAnalysis
     = (num 100 + strategyBonus (hit_searchType result)
        - hit_score result * num 100
        + contextBonus result
        + specificSectionBonus queryAnalysis result)%Qc
     ∧ (num 10 ≤ calculateRelevanceScore result queryAnalysis)%Qc
     ∧ (strategyBonus (hit_searchType result)
        ≤ calculateRelevanceScore result queryAnalysis)%Qc
     ∧ (calculateRelevanceScore result queryAnalysis
        ≤ num 120 + strategyBonus (hit_searchType result)
          + contextBonus result)%Qc).
Proof.
  split.
  - unfold calculateRelevanceScore, Math_max. case_decide as H; [done|].
    apply Qcnot_le_lt in H. by apply Qclt_le_weak in H.
  - intros (Hlo & Hhi & Hc).
    rewrite calculateRelevanceScore_formula.
    unfold contextBonus, specificSectionBonus.
    set (sb := if qa_isSpecific queryAnalysis && isSection (hit_item result)
               then num 20 else num 0).
    assert (Hsb : (num 0 ≤ sb)%Qc ∧ (sb ≤ num 20)%Qc)
      by (subst sb; by case_match).
    set (cb := default (num 0) (hit_contextScore result)).
    assert (Hcb : (num 0 ≤ cb)%Qc).
    { subst cb. destruct (hit_contextScore result) as [c|]; simpl;
        [by apply Hc|done]. }
    assert (Hb : (num 10 ≤ strategyBonus (hit_searchType result))%Qc)
      by (by destruct (hit_searchType result)).
    set (b := strategyBonus (hit_searchType result)) in *.
    destruct Hsb as [Hsb1 Hsb2]. clearbody sb cb b.
    rewrite Math_max_0_nonneg by qc_linear.
    repeat split; [qc_linear..].
Qed.

(** X12. The relevance score is never negative; for a hit whose raw score
    lies in [0, 1] and whose context score is not negative the floor at 0
    is never reached: the score is the sum itself, at least the bonus of
    the strategy (so at least 10) and at most 120 plus that bonus plus the
    context score. *)
Theorem relevance_score_bounds result queryAnalysis :
  (num 0 ≤ calculateRelevanceScore result queryAnalysis)%Qc
  ∧ (wellScored result →
     calculateRelevanceScore result queryAnalysis
     = (num 100 + strategyBonus (hit_searchType result)
        - hit_score result * num 100
        + contextBonus result
        + specificSectionBonus queryAnalysis result)%Qc
     ∧ (num 10 ≤ calculateRelevanceScore result queryAnalysis)%Qc
     ∧ (strategyBonus (hit_searchType result)
        ≤ calculateRelevanceScore result queryAnalysis)%Qc
     ∧ (calculateRelevanceScore result queryAnalysis
        ≤ num 120 + strategyBonus (hit_searchType result)
          + contextBonus result)%Qc).
Proof. apply relevance_bounds. Qed.

Lemma relevance_score_bounds_witness :
  (num 10 ≤ calculateRelevanceScore
              (ScoreSamples.hitOf partial ScoreSamples.quarter)
              (analyzeQuery "local government"))%Qc.
Proof.
  apply (proj2 (relevance_score_bounds
                  (ScoreSamples.hitOf partial ScoreSamples.quarter)
                  (analyzeQuery "local government"))).
  split; [|split]; [by vm_compute|by vm_compute|intros c Hc; discriminate Hc].
Defined.

(** ** Custom items *)

Lemma addCustomData_storeIn now data ix :
  collectionOf data ∈ ["dataset"; "api"; "document"]
  ∧ addCustomData now data ix
    = (customItem now data,
       buildSearchIndex (storeIn (collectionOf data) (customItem now data) ix)).
Proof.
  unfold addCustomData, collectionOf, storeIn.
  destruct (cd_category data) as [[|[[] [] [] [] [] [] [] []] ?]|];
    repeat case_match; simplify_eq/=; (split; [set_solver|reflexivity]).
Qed.

(** X13. [addCustomData] appends the item to one collection (datasets for
    the category ['dataset'], APIs for ['api'], documents for every other
    or no category), which makes the total of [getStats] grow by one, and
    rebuilds the index over the new collections; the indexed copy carries
    the category of the collection, while the returned item keeps its own
    category or ['custom']; sections, visited set and requests are left
    alone. *)
Theorem custom_item_is_stored_and_indexed now data ix :
  let item := fst (addCustomData now data ix) in
  let ix' := snd (addCustomData now data ix) in
  item = customItem now data
  ∧ item_category item
    = Some (if Str.truthy (cd_category data)
            then default EmptyString (cd_category data) else "custom")
  ∧ collectionOf data ∈ ["dataset"; "api"; "document"]
  ∧ stats_total (getStats ix') = S (stats_total (getStats ix))
  ∧ searchIndex ix' = Some (allItems ix')
  ∧ withCategory (collectionOf data) item ∈ allItems ix'
  ∧ datasets ix'
    = (if String.eqb (collectionOf data) "dataset"
       then datasets ix ++ [item] else datasets ix)%list
  ∧ apis ix'
    = (if String.eqb (collectionOf data) "api"
       then apis ix ++ [item] else apis ix)%list
  ∧ documents ix'
    = (if String.eqb (collectionOf data) "document"
       then documents ix ++ [item] else documents ix)%list
  ∧ contentSections ix' = contentSections ix
  ∧ crawledUrls ix' = crawledUrls ix
  ∧ requests ix' = requests ix.
Proof.
  destruct (addCustomData_storeIn now data ix) as [Hc E].
  rewrite E. cbn [fst snd]. clear E.
  split; [done|]. split.
  { unfold customItem. cbn [item_category]. unfold Str.orElse.
    by destruct (cd_category data) as [[|? ?]|]. }
  split; [done|].
  set (item := customItem now data). clearbody item.
  unfold storeIn, getStats, allItems, buildSearchIndex.
  apply elem_of_cons in Hc as [->|Hc]; [|apply elem_of_cons in Hc as [->|Hc]];
    [| |apply list_elem_of_singleton in Hc as ->];
    cbn; rewrite ?length_app; cbn;
    (repeat split; [lia| |done..]);
    rewrite ?List.map_app; set_solver.
Qed.

(** * Further properties of page parsing *)

Lemma increasing_bounded_length (l : list nat) :
  StronglySorted lt l →
  ∀ lo hi, Forall (λ y, (lo ≤ y < hi)%nat) l → (List.length l ≤ hi - lo)%nat.
Proof.
  induction 1 as [|x l Hs IH Hx]; intros lo hi Hall; simpl; [lia|].
  apply Forall_cons in Hall as [Hx0 Hall].
  assert (Hl : Forall (λ y, (S x ≤ y < hi)%nat) l).
  { apply Forall_forall. intros y Hy.
    rewrite Forall_forall in Hx, Hall. specialize (Hx y Hy).
    specialize (Hall y Hy). lia. }
  specialize (IH (S x) hi Hl). lia.
Qed.

Lemma sectionPathFrom_chain rev_sections :
  ∀ currentLevel path, ∃ picked,
    sectionPathFrom rev_sections currentLevel path
    = (List.map ps_title picked ++ path)%list
    ∧ picked `sublist_of` rev rev_sections
    ∧ StronglySorted lt (List.map ps_level picked)
    ∧ Forall (λ s, (ps_level s < currentLevel)%nat) picked.
Proof.
  induction rev_sections as [|s rest IH]; intros currentLevel path;
    cbn [sectionPathFrom].
  - exists []. repeat split; constructor.
  - destruct (ps_level s <? currentLevel)%nat eqn:E.
    + apply Nat.ltb_lt in E.
      destruct (IH (ps_level s) (ps_title s :: path))
        as (picked & Hp & Hsub & Hsort & Hall).
      exists (picked ++ [s])%list. repeat split.
      * by rewrite Hp, List.map_app, <- app_assoc.
      * simpl. by apply sublist_app.
      * rewrite List.map_app. apply StronglySorted_app. repeat split.
        -- intros x1 x2 (s1 & -> & H1)%list_elem_of_fmap
             ->%list_elem_of_singleton.
           rewrite Forall_forall in Hall. by apply Hall.
        -- done.
        -- repeat constructor.
      * apply Forall_app. split; [|by repeat constructor].
        eapply Forall_impl; [exact Hall|]. intros; simpl in *; lia.
    + destruct (IH currentLevel path) as (picked & Hp & Hsub & Hsort & Hall).
      exists picked. repeat split; try done.
      simpl. by apply sublist_inserts_r.
Qed.

(** X14. The path of a section names earlier sections of the page in
    their order, with strictly increasing heading levels that all lie below
    the level of the section; so it has at most [level] entries. *)
Theorem section_path_is_rising_chain sections currentLevel :
  ∃ picked,
    generateSectionPath sections currentLevel = List.map ps_title picked
    ∧ picked `sublist_of` sections
    ∧ StronglySorted lt (List.map ps_level picked)
    ∧ Forall (λ s, (ps_level s < currentLevel)%nat) picked
    ∧ (List.length (generateSectionPath sections currentLevel)
       ≤ currentLevel)%nat.
Proof.
  unfold generateSectionPath.
  destruct (sectionPathFrom_chain (rev sections) currentLevel [])
    as (picked & Hp & Hsub & Hsort & Hall).
  rewrite rev_involutive in Hsub. rewrite app_nil_r in Hp.
  exists picked. repeat split; try done.
  rewrite Hp, length_map, <- (length_map ps_level).
  pose proof (increasing_bounded_length _ Hsort 0%nat currentLevel) as Hlen.
  rewrite Nat.sub_0_r in Hlen. apply Hlen.
  apply Forall_fmap. eapply Forall_impl; [exact Hall|].
  intros s Hs. unfold compose. simpl in *. lia.
Qed.

Lemma List_filter_elem {A : Type} (f : A → bool) (l : list A) x :
  x ∈ List.filter f l ↔ x ∈ l ∧ f x = true.
Proof. rewrite !list_elem_of_In. apply filter_In. Qed.

(** X15. The tags of a section are the words of the three fixed
    vocabularies that occur in the lower-cased heading and content, in the
    order of the vocabularies and without repetition; they are lower-case,
    and they do not depend on the letter case of the heading or content. *)
Theorem section_tags_from_vocabulary title content :
  (∀ t, t ∈ extractSectionTags title content
        ↔ t ∈ (locationNames ++ topicNames ++ govLevelNames)%list
          ∧ Str.includes (Str.toLowerCase (title ++ " " ++ content)) t = true)
  ∧ extractSectionTags title content
    `sublist_of` (locationNames ++ topicNames ++ govLevelNames)%list
  ∧ NoDup (extractSectionTags title content)
  ∧ Forall (λ t, Str.toLowerCase t = t) (extractSectionTags title content)
  ∧ ∀ title' content',
      Str.toLowerCase title = Str.toLowerCase title' →
      Str.toLowerCase content = Str.toLowerCase content' →
      extractSectionTags title content = extractSectionTags title' content'.
Proof.
  assert (Hsub : extractSectionTags title content
                 `sublist_of` (locationNames ++ topicNames ++ govLevelNames)%list).
  { unfold extractSectionTags. repeat apply sublist_app; apply List_filter_sublist. }
  assert (Hvoc : NoDup (locationNames ++ topicNames ++ govLevelNames)%list)
    by (apply (bool_decide_unpack _); by vm_compute).
  assert (Hlow : Forall (λ t, Str.toLowerCase t = t)
                   (locationNames ++ topicNames ++ govLevelNames)%list)
    by (repeat constructor).
  split; [|split; [done|split; [by eapply sublist_NoDup|split]]].
  - intros t. unfold extractSectionTags.
    rewrite !elem_of_app, !List_filter_elem. naive_solver.
  - apply Forall_forall. intros t Ht. rewrite Forall_forall in Hlow.
    apply Hlow. by eapply sublist_subseteq.
  - intros title' content' Ht Hc. unfold extractSectionTags.
    by rewrite !toLowerCase_app, Ht, Hc.
Qed.

Lemma collectContent_stop headingLevel stop level pre post :
  headingLevelOfTag (el_tagName stop) = Some level →
  (level ≤ headingLevel)%nat →
  ∀ content,
    collectContent headingLevel content (pre ++ stop :: post)
    = collectContent headingLevel content pre.
Proof.
  intros Hstop Hle. induction pre as [|el pre IH]; intros content; simpl.
  - rewrite Hstop. apply Nat.leb_le in Hle. by rewrite Hle.
  - destruct (match headingLevelOfTag (el_tagName el) with
              | Some currentLevel => (currentLevel <=? headingLevel)%nat
              | None => false
              end); [done|apply IH].
Qed.

Lemma headingLevelOfTag_not_block tagName level :
  headingLevelOfTag tagName = Some level →
  isTextBlock tagName = false ∧ isListBlock tagName = false.
Proof.
  intros H. unfold headingLevelOfTag in H.
  repeat case_match; simplify_eq. by vm_compute.
Qed.

(** X16. The content of a section ends at the next heading of the same or
    a shallower level: what follows that heading never enters the content;
    a deeper heading among the siblings does not end the section, and its
    own text is not part of the content. *)
Theorem section_content_stops_at_next_heading level text pre stop post stopLevel :
  headingLevelOfTag (el_tagName stop) = Some stopLevel →
  ((stopLevel ≤ level)%nat →
   extractSectionContent
     {| hd_level := level; hd_text := text; hd_next := pre ++ stop :: post |}
   = extractSectionContent
       {| hd_level := level; hd_text := text; hd_next := pre |})
  ∧ ((level < stopLevel)%nat →
     ∀ content,
       collectContent level content (stop :: post)
       = collectContent level content post).
Proof.
  intros Hstop. split.
  - intros Hle. unfold extractSectionContent. cbn [hd_level hd_next].
    by rewrite (collectContent_stop level stop stopLevel pre post Hstop Hle).
  - intros Hlt content. cbn [collectContent]. rewrite Hstop.
    apply Nat.leb_gt in Hlt. rewrite Hlt.
    by destruct (headingLevelOfTag_not_block _ _ Hstop) as [-> ->].
Qed.

Lemma section_content_stops_at_next_heading_witness :
  extractSectionContent
    {| hd_level := 2; hd_text := "Employment";
       hd_next := [Samples.paragraph "Annual figures";
                   {| el_tagName := "H2"; el_text := "Housing"; el_items := [] |};
                   Samples.paragraph "Rents"] |}
  = extractSectionContent
      {| hd_level := 2; hd_text := "Employment";
         hd_next := [Samples.paragraph "Annual figures"] |}.
Proof.
  apply (proj1 (section_content_stops_at_next_heading 2 "Employment"
                  [Samples.paragraph "Annual figures"]
                  {| el_tagName := "H2"; el_text := "Housing"; el_items := [] |}
                  [Samples.paragraph "Rents"] 2 eq_refl)).
  lia.
Defined.

Lemma nonEmptyOr_nonempty a b : b ≠ EmptyString → nonEmptyOr a b ≠ EmptyString.
Proof. by destruct a. Qed.

(** X17. A parsed page always has a title (['Untitled'] when neither the
    [title] element nor the first [h1] has text); a description taken from
    the first paragraph has at most 200 characters; and the page has one
    section for each heading with text, in the order of the headings. *)
Theorem parsed_page_title_and_sections pg url :
  pst_title (parsePageStructure pg url) ≠ EmptyString
  ∧ (Str.trim (pg_titleText pg) = EmptyString →
     Str.trim (pg_firstH1 pg) = EmptyString →
     pst_title (parsePageStructure pg url) = "Untitled")
  ∧ (Str.truthy (pg_metaDescription pg) = false →
     Str.truthy (pg_ogDescription pg) = false →
     pst_description (parsePageStructure pg url)
     = Str.substring0 200 (pg_firstParagraph pg)
     ∧ (String.length (pst_description (parsePageStructure pg url)) ≤ 200)%nat)
  ∧ List.map ps_title (pst_sections (parsePageStructure pg url))
    = List.map (λ h, Str.trim (hd_text h)) (List.filter hasText (pg_headings pg))
  ∧ (List.length (pst_sections (parsePageStructure pg url))
     ≤ List.length (pg_headings pg))%nat.
Proof.
  assert (Htitles : ∀ hs acc,
            List.map ps_title (fold_left (addHeading url) hs acc)
            = (List.map ps_title acc
               ++ List.map (λ h, Str.trim (hd_text h)) (List.filter hasText hs))%list).
  { induction hs as [|h hs IH]; intros acc; cbn [fold_left List.filter].
    - by rewrite app_nil_r.
    - rewrite IH.
      destruct (addHeading_cases url acc h) as [[E ->]|[E (s & -> & Hof)]];
        rewrite E; [done|].
      destruct Hof as (Ht & _).
      rewrite List.map_app. simpl. rewrite <- app_assoc. simpl. by rewrite Ht. }
  split; [|split; [|split; [|split]]].
  - unfold parsePageStructure. cbn [pst_title].
    by apply nonEmptyOr_nonempty, nonEmptyOr_nonempty.
  - intros H1 H2. unfold parsePageStructure. cbn [pst_title]. by rewrite H1, H2.
  - intros H1 H2.
    assert (E : pst_description (parsePageStructure pg url)
                = Str.substring0 200 (pg_firstParagraph pg)).
    { unfold parsePageStructure. cbn [pst_description].
      unfold Str.orElse. by rewrite H1, H2. }
    rewrite E. split; [done|]. rewrite substring0_length. lia.
  - unfold parsePageStructure. cbn [pst_sections]. by rewrite Htitles.
  - rewrite <- (length_map ps_title). unfold parsePageStructure.
    cbn [pst_sections]. rewrite Htitles. simpl. rewrite length_map.
    apply sublist_length, List_filter_sublist.
Qed.

Lemma parsed_page_title_and_sections_witness :
  pst_title
    (parsePageStructure (CrawlSamples.pageWith "   " []) "https://www.dewr.gov.au/")
  = "Untitled".
Proof.
  apply (proj1 (proj2 (parsed_page_title_and_sections
                         (CrawlSamples.pageWith "   " [])
                         "https://www.dewr.gov.au/"))); reflexivity.
Defined.

(** * Further properties of query analysis and suggestions *)

(** X18. The analysis of a query does not depend on its letter case; the
    detected words are taken from the three vocabularies, in their order;
    and a specific query always has context. *)
Theorem query_analysis_case_insensitive query :
  (∀ query', Str.toLowerCase query = Str.toLowerCase query' →
     qa_words (analyzeQuery query) = qa_words (analyzeQuery query')
     ∧ qa_locations (analyzeQuery query) = qa_locations (analyzeQuery query')
     ∧ qa_topics (analyzeQuery query) = qa_topics (analyzeQuery query')
     ∧ qa_govLevels (analyzeQuery query) = qa_govLevels (analyzeQuery query')
     ∧ qa_hasContext (analyzeQuery query) = qa_hasContext (analyzeQuery query')
     ∧ qa_isSpecific (analyzeQuery query) = qa_isSpecific (analyzeQuery query'))
  ∧ qa_locations (analyzeQuery query) `sublist_of` locationNames
  ∧ qa_topics (analyzeQuery query) `sublist_of` topicNames
  ∧ qa_govLevels (analyzeQuery query) `sublist_of` govLevelNames
  ∧ (qa_isSpecific (analyzeQuery query) = true →
     qa_hasContext (analyzeQuery query) = true)
  ∧ qa_originalQuery (analyzeQuery query) = query.
Proof.
  split; [|split; [|split; [|split; [|split]]]].
  - intros query' E. unfold analyzeQuery. cbn. by rewrite E.
  - apply List_filter_sublist.
  - apply List_filter_sublist.
  - apply List_filter_sublist.
  - unfold analyzeQuery. cbn [qa_isSpecific qa_hasContext].
    by intros [-> _]%andb_true_iff.
  - done.
Qed.

Lemma query_analysis_case_insensitive_witness :
  qa_topics (analyzeQuery "Education in ADELAIDE")
  = qa_topics (analyzeQuery "education in adelaide").
Proof.
  apply (proj1 (query_analysis_case_insensitive "Education in ADELAIDE")
           "education in adelaide").
  reflexivity.
Defined.

Lemma concat_tags_nil (results : list Ranked) :
  Forall (λ r, item_tags (hit_item (rk_hit r)) = []) results →
  resultTags results = [].
Proof.
  unfold resultTags.
  induction 1 as [|r rs Hr _ IH]; simpl; [done|]. by rewrite Hr, IH.
Qed.

Lemma generateSearchSuggestions_parts queryAnalysis results :
  generateSearchSuggestions queryAnalysis results
  = ((if nonEmpty (qa_topics queryAnalysis)
         && negb (nonEmpty (qa_locations queryAnalysis))
      then [locationSuggestion (qa_originalQuery queryAnalysis)] else [])
     ++ (if nonEmpty (qa_locations queryAnalysis)
            && negb (nonEmpty (qa_topics queryAnalysis))
         then [topicSuggestion (qa_originalQuery queryAnalysis)] else [])
     ++ relatedPart results)%list.
Proof.
  unfold generateSearchSuggestions, relatedPart, relatedSuggestion.
  fold (resultTags results). do 2 f_equal.
  unfold unique. destruct (resultTags results) as [|t ts]; [done|].
  cbn [uniqueFrom]. by rewrite bool_decide_eq_false_2 by apply not_elem_of_nil.
Qed.

(** X19. The suggestions are, in this order: the hint to add a location,
    for a query with a topic and no location; the hint to add a topic, for
    a query with a location and no topic; and the list of related topics
    (the first three different tags of the results), present exactly when
    some result has a tag.  So a query with both a location and a topic, or
    with neither, gets no hint, and there are at most two suggestions. *)
Theorem suggestions_shape queryAnalysis results :
  (List.length (generateSearchSuggestions queryAnalysis results) ≤ 2)%nat
  ∧ (qa_topics queryAnalysis ≠ [] → qa_locations queryAnalysis = [] →
     generateSearchSuggestions queryAnalysis results
     = locationSuggestion (qa_originalQuery queryAnalysis) :: relatedPart results)
  ∧ (qa_locations queryAnalysis ≠ [] → qa_topics queryAnalysis = [] →
     generateSearchSuggestions queryAnalysis results
     = topicSuggestion (qa_originalQuery queryAnalysis) :: relatedPart results)
  ∧ (qa_locations queryAnalysis ≠ [] → qa_topics queryAnalysis ≠ [] →
     generateSearchSuggestions queryAnalysis results = relatedPart results)
  ∧ (qa_locations queryAnalysis = [] → qa_topics queryAnalysis = [] →
     generateSearchSuggestions queryAnalysis results = relatedPart results)
  ∧ (resultTags results = [] → relatedPart results = [])
  ∧ (resultTags results ≠ [] →
     relatedPart results
     = ["Related topics: "
        ++ Str.join ", " (take 3 (unique (resultTags results)))])
  ∧ (Forall (λ r, item_tags (hit_item (rk_hit r)) = []) results →
     relatedPart results = []).
Proof.
  rewrite generateSearchSuggestions_parts.
  assert (Hrel : (List.length (relatedPart results) ≤ 1)%nat)
    by (unfold relatedPart; case_match; simpl; lia).
  assert (Hnil : resultTags results = [] → relatedPart results = [])
    by (unfold relatedPart; by intros ->).
  split; [|split; [|split; [|split; [|split; [|split; [done|split]]]]]].
  - rewrite !length_app. repeat case_match; simpl; try lia.
    by destruct (qa_topics queryAnalysis), (qa_locations queryAnalysis).
  - intros Ht ->. by destruct (qa_topics queryAnalysis).
  - intros Hl ->. by destruct (qa_locations queryAnalysis).
  - intros Hl Ht.
    by destruct (qa_topics queryAnalysis), (qa_locations queryAnalysis).
  - by intros -> ->.
  - unfold relatedPart, relatedSuggestion.
    by destruct (resultTags results).
  - intros Hall. by apply Hnil, concat_tags_nil.
Qed.

Lemma suggestions_shape_witness :
  generateSearchSuggestions (analyzeQuery "education") []
  = [locationSuggestion "education"].
Proof.
  apply (proj1 (proj2 (suggestions_shape (analyzeQuery "education") []))).
  - discriminate.
  - reflexivity.
Defined.

(** ** The hits of the strategies *)

Lemma fuseHit_wellScored fuseSearch index pattern t r :
  scoresInRange fuseSearch → r ∈ fuseSearch index pattern →
  wellScored (fuseHit t r) ∧ hit_contextScore (fuseHit t r) = None
  ∧ hit_searchType (fuseHit t r) = t.
Proof.
  intros Hrange Hr. destruct (Hrange index pattern r Hr) as [Hlo Hhi].
  repeat split; try done.
Qed.

(** X20. Among the hits of the four strategies only the semantic ones
    carry a context score, and they exist only for a query with context.
    When the raw scores of the fuzzy index lie in [0, 1], every hit is in
    the range where the floor of the relevance score is inactive, so every
    result of [search] has a relevance score of at least 10. *)
Theorem strategy_hits_in_range fuseSearch ix index q :
  (∀ h, h ∈ strategyHits fuseSearch ix index q (analyzeQuery q) →
     (is_Some (hit_contextScore h) ↔ hit_searchType h = semantic)
     ∧ (hit_searchType h = semantic →
        qa_hasContext (analyzeQuery q) = true
        ∧ h ∈ searchWithContext ix (analyzeQuery q)))
  ∧ (scoresInRange fuseSearch →
     (∀ h, h ∈ strategyHits fuseSearch ix index q (analyzeQuery q) →
        wellScored h)
     ∧ ∀ options r, r ∈ rankedResults fuseSearch ix index q options →
         (num 10 ≤ rk_relevanceScore r)%Qc).
Proof.
  assert (Hsem : ∀ h, h ∈ strategyHits fuseSearch ix index q (analyzeQuery q) →
            (hit_searchType h = semantic ∧ is_Some (hit_contextScore h)
             ∧ qa_hasContext (analyzeQuery q) = true
             ∧ h ∈ searchWithContext ix (analyzeQuery q))
            ∨ (hit_searchType h ≠ semantic ∧ hit_contextScore h = None
               ∧ ∃ pattern t r, r ∈ fuseSearch index pattern ∧ h = fuseHit t r)).
  { intros h. unfold strategyHits. rewrite !elem_of_app.
    intros [H|[H|[H|H]]].
    - left. destruct (qa_hasContext (analyzeQuery q)) eqn:E;
        [|by apply elem_of_nil in H].
      destruct (searchWithContext_hit ix (analyzeQuery q) h H)
        as (_ & Ht & _ & _ & Hc & _).
      rewrite Hc. by repeat split.
    - right. apply list_elem_of_fmap in H as (r & -> & Hr).
      repeat split; try done. by eexists _, _, r.
    - right. apply list_elem_of_fmap in H as (r & -> & Hr).
      repeat split; try done. by eexists _, _, r.
    - right. apply list_elem_of_In, in_concat in H as (l & Hl & H).
      apply in_map_iff in Hl as (word & <- & _).
      apply list_elem_of_In, list_elem_of_fmap in H as (r & -> & Hr).
      repeat split; try done. by eexists _, _, r. }
  split.
  - intros h [(Ht & Hc & Hctx & Hin)|(Ht & Hc & _)]%Hsem.
    + by repeat split.
    + rewrite Hc. split; [split; [by intros [? ?]|done]|done].
  - intros Hrange.
    assert (Hws : ∀ h, h ∈ strategyHits fuseSearch ix index q (analyzeQuery q) →
              wellScored h).
    { intros h [(_ & _ & _ & Hin)|(_ & _ & pattern & t & r & Hr & ->)]%Hsem.
      - by apply (searchWithContext_hit ix (analyzeQuery q)).
      - by eapply fuseHit_wellScored. }
    split; [done|].
    intros options r (Hm & _)%rankedResults_from_merge.
    apply mergeHits_values in Hm as (h & Hh & ->). cbn [rank rk_relevanceScore].
    by apply relevance_bounds, Hws.
Qed.

(** * The properties at the sample data *)

Lemma titleIndex_answersFromIndex : answersFromIndex SearchSamples.titleIndex.
Proof.
  intros index pattern r. unfold SearchSamples.titleIndex.
  intros (it & -> & Hit)%list_elem_of_fmap.
  apply List_filter_elem in Hit as [Hit _]. done.
Defined.

Lemma titleIndex_scoresInRange : scoresInRange SearchSamples.titleIndex.
Proof.
  intros index pattern r. unfold SearchSamples.titleIndex.
  intros (it & -> & _)%list_elem_of_fmap. by split.
Defined.

Lemma crawl_requests_at_most_once_witness :
  ∃ new,
    requests
      (deepCrawlWebsite CrawlSamples.fetch CrawlSamples.resolve
         CrawlSamples.hostname 1 Endpoints.dewr dewrOptions 0 newIndexer)
    = (requests newIndexer ++ new)%list
    ∧ crawledUrls
        (deepCrawlWebsite CrawlSamples.fetch CrawlSamples.resolve
           CrawlSamples.hostname 1 Endpoints.dewr dewrOptions 0 newIndexer)
      = crawledUrls newIndexer ∪ list_to_set new
    ∧ NoDup new
    ∧ ∀ u, u ∈ new → u ∉ crawledUrls newIndexer.
Proof.
  exact (crawl_requests_at_most_once CrawlSamples.fetch CrawlSamples.resolve
           CrawlSamples.hostname 1 Endpoints.dewr dewrOptions 0 newIndexer).
Defined.

Lemma links_to_follow_bounded_and_filtered_witness :
  CrawlSamples.dataUrl
  ∈ linksToFollow CrawlSamples.resolve CrawlSamples.hostname
      (CrawlSamples.pageWith "DEWR" ["/data"; "/about"; "https://example.org/data"])
      Endpoints.dewr dewrOptions ∅
  ∧ isRelevantLink (opt_tags dewrOptions) CrawlSamples.dataUrl = true.
Proof.
  assert (H : CrawlSamples.dataUrl
              ∈ linksToFollow CrawlSamples.resolve CrawlSamples.hostname
                  (CrawlSamples.pageWith "DEWR"
                     ["/data"; "/about"; "https://example.org/data"])
                  Endpoints.dewr dewrOptions ∅).
  { vm_compute. apply list_elem_of_here. }
  split; [exact H|].
  exact (proj2 (proj2 (proj2 (proj2
           (proj2 (proj2 (links_to_follow_bounded_and_filtered
                            CrawlSamples.resolve CrawlSamples.hostname
                            (CrawlSamples.pageWith "DEWR"
                               ["/data"; "/about"; "https://example.org/data"])
                            Endpoints.dewr dewrOptions ∅))
              CrawlSamples.dataUrl H))))).
Defined.

Lemma merge_keeps_first_hit_order_witness :
  ∃ h, h ∈ [MergeSamples.exactHit; MergeSamples.fuzzyHit]
       ∧ rk_hit (rank MergeSamples.query MergeSamples.fuzzyHit) = h
       ∧ rk_relevanceScore (rank MergeSamples.query MergeSamples.fuzzyHit)
         = calculateRelevanceScore h MergeSamples.query.
Proof.
  apply (proj1 (proj2 (proj2 (merge_keeps_first_hit_order MergeSamples.query
                                [MergeSamples.exactHit; MergeSamples.fuzzyHit])))
           (rank MergeSamples.query MergeSamples.fuzzyHit)).
  vm_compute. apply list_elem_of_here.
Defined.

Lemma search_results_unique_and_filtered_witness :
  ∃ r,
    r ∈ resp_results
          (search SearchSamples.titleIndex SearchSamples.indexer (Some "   ")
             SearchSamples.noOptions)
    ∧ ∃ index q h,
        searchIndex SearchSamples.indexer = Some index ∧ Some "   " = Some q
        ∧ h ∈ strategyHits SearchSamples.titleIndex SearchSamples.indexer index q
                (analyzeQuery q)
        ∧ sr_item r = hit_item h ∧ sr_score r = hit_score h
        ∧ sr_searchType r = hit_searchType h
        ∧ sr_relevanceScore r = calculateRelevanceScore h (analyzeQuery q).
Proof.
  eexists. split.
  - vm_compute. apply list_elem_of_here.
  - apply (proj2 (search_results_unique_and_filtered SearchSamples.titleIndex
                    SearchSamples.indexer (Some "   ") SearchSamples.noOptions)).
    vm_compute. apply list_elem_of_here.
Defined.

Lemma search_by_unstamped_category_is_empty_witness :
  resp_results
    (search SearchSamples.titleIndex CustomSamples.withNote (Some "   ")
       CustomSamples.customOptions) = [].
Proof.
  apply (search_by_unstamped_category_is_empty SearchSamples.titleIndex
           CustomSamples.withNote CustomSamples.withNote (Some "   ")
           CustomSamples.customOptions "custom").
  - exact titleIndex_answersFromIndex.
  - vm_compute. reflexivity.
  - reflexivity.
  - discriminate.
  - apply (bool_decide_unpack _). vm_compute. reflexivity.
Defined.

Lemma semantic_hits_scored_and_sorted_witness :
  ∃ h, h ∈ searchWithContext CrawlSamples.started
             (analyzeQuery "employment in adelaide")
       ∧ wellScored h.
Proof.
  eexists. split.
  - vm_compute. apply list_elem_of_here.
  - apply (proj1 (semantic_hits_scored_and_sorted CrawlSamples.started
                    (analyzeQuery "employment in adelaide"))).
    vm_compute. apply list_elem_of_here.
Defined.

Lemma section_tags_from_vocabulary_witness :
  extractSectionTags "Health in SYDNEY" "Council services"
  = extractSectionTags "health in sydney" "council services".
Proof.
  apply (proj2 (proj2 (proj2 (proj2
           (section_tags_from_vocabulary "Health in SYDNEY" "Council services")))));
    reflexivity.
Defined.

Lemma strategy_hits_in_range_witness :
  ∃ h, h ∈ strategyHits SearchSamples.titleIndex SearchSamples.indexer
             (allItems SearchSamples.indexer) "   " (analyzeQuery "   ")
       ∧ wellScored h.
Proof.
  eexists. split.
  - vm_compute. apply list_elem_of_here.
  - apply (proj1 (proj2 (strategy_hits_in_range SearchSamples.titleIndex
                           SearchSamples.indexer (allItems SearchSamples.indexer)
                           "   ")
                    titleIndex_scoresInRange)).
    vm_compute. apply list_elem_of_here.
Defined.

Lemma search_results_bounded_and_sorted_witness :
  resp_results
    (search SearchSamples.titleIndex CrawlSamples.started (Some "Employment")
       LimitSamples.dropLast)
  = take
      (List.length
         (resp_results
            (search SearchSamples.titleIndex CrawlSamples.started
               (Some "Employment")
               (withLimit (Some PosInfinity) LimitSamples.dropLast)))
       - Z.to_nat (- truncate (num (-1))))
      (resp_results
         (search SearchSamples.titleIndex CrawlSamples.started
            (Some "Employment")
            (withLimit (Some PosInfinity) LimitSamples.dropLast))).
Proof.
  apply (proj1 (proj2 (proj2 (proj2 (proj2 (proj2
           (search_results_bounded_and_sorted SearchSamples.titleIndex
              CrawlSamples.started (Some "Employment")
              LimitSamples.dropLast))))))
           (num (-1))).
  - reflexivity.
  - vm_compute. reflexivity.
Defined.
